(** * The multi-server tool-invocation client of Agent-Scaffold

    A shallow embedding of [src/agent/tools/mcp_client.py] (class
    [MCPClient]) and of the server descriptor of [src/agent/config.py].

    The client talks to two things it does not own: the operating system
    ([subprocess.Popen], [os.environ]) and the MCP SDK ([stdio_client],
    [ClientSession]).  Both are taken as interfaces over an abstract world
    state [W]; every call of the client into them is recorded in a trace of
    events, so that "which server was contacted, in which order, and what was
    torn down" are statements about the returned trace. *)

From stdpp Require Import base strings gmap list.
From Stdlib Require Import Lia.

(** ** Data model *)

(** [agent.config.MCPServer]: name, command, args (default []), env
    (default {}). *)
Record MCPServer := mkServer {
  name : string;
  command : string;
  args : list string;
  env : gmap string string
}.

(** The argument of [stdio_client]: [StdioServerParameters(command, args,
    env)], where [env] may be [None]. *)
Record StdioServerParameters := mkParams {
  sp_command : string;
  sp_args : list string;
  sp_env : option (gmap string string)
}.

(** A tool as advertised by a server ([ret.tools]); the client reads only
    [t.name]. *)
Record Tool := mkTool {
  tool_name : string;
  tool_description : string
}.

(** The payload of a tool invocation; [content] may be missing. *)
Record CallToolResult := mkResult {
  content : option (list string);
  isError : bool
}.

(** What [call_tool] hands back: [getattr(result, "content", result)]. *)
Inductive ToolReturn :=
| RetContent (c : list string)
| RetRaw (r : CallToolResult).

(** Exceptions (all of them subclasses of [Exception]): the two
    [RuntimeError]s the client raises itself, and whatever the SDK or the
    operating system raises, kept as class name and message. *)
Inductive exn :=
| RuntimeError (msg : string)
| PeerError (cls msg : string).

(** [str(e)] *)
Definition str (e : exn) : string :=
  match e with
  | RuntimeError m => m
  | PeerError _ m => m
  end.

(** [f"{last_err}"] for [last_err : Optional[Exception]] *)
Definition str_opt (e : option exn) : string :=
  match e with
  | Some e => str e
  | None => "None"
  end.

(** Python truthiness of an [Optional[str]]: [None] and [""] are falsy. *)
Definition truthy (s : option string) : bool :=
  match s with
  | Some (String _ _) => true
  | _ => false
  end.

(** [x or None] for a dict *)
Definition or_None (d : gmap string string) : option (gmap string string) :=
  if decide (d = ∅) then None else Some d.

(** A step of the client either returns, raises, or never comes back (the
    awaited peer does not answer). *)
Inductive outcome (A : Type) : Type :=
| Ok (a : A)
| Raise (e : exn)
| Hang.
Arguments Ok {A} a.
Arguments Raise {A} e.
Arguments Hang {A}.

(** A session handle: the parameters it was opened with, numbered in
    order of creation. *)
Record Session := mkSession {
  sid : nat;
  params : StdioServerParameters
}.

(** What the client asks of the SDK, in the order it asks, each request
    with the answer it got ([Hang]: the request was never answered). *)
Inductive event :=
| EvSpawn (s : Session) (reply : outcome unit)
    (* stdio_client(params).__aenter__: spawn the process, open its streams *)
| EvTerminate (s : Session) (reply : outcome unit)
    (* stdio_client(params).__aexit__: terminate the process, close the streams *)
| EvSessionEnter (s : Session) (reply : outcome unit)
    (* ClientSession(read_stream, write_stream).__aenter__ *)
| EvSessionExit (s : Session) (reply : outcome unit)
    (* ClientSession(...).__aexit__ *)
| EvInitialize (s : Session) (reply : outcome unit)
    (* session.initialize() *)
| EvListTools (s : Session) (reply : outcome (list Tool))
    (* session.list_tools() *)
| EvCallTool (s : Session) (tool : string) (arguments : gmap string string)
    (reply : outcome CallToolResult).
    (* session.call_tool(name=..., arguments=...) *)

Global Instance StdioServerParameters_eq_dec : EqDecision StdioServerParameters.
Proof. solve_decision. Defined.
Global Instance Session_eq_dec : EqDecision Session.
Proof. solve_decision. Defined.
Global Instance MCPServer_eq_dec : EqDecision MCPServer.
Proof. solve_decision. Defined.

(** ** The MCP SDK as an interface *)

Record SDK (W : Type) := mkSDK {
  stdio_enter : Session -> W -> outcome unit * W;
  stdio_exit : Session -> W -> outcome unit * W;
  session_enter : Session -> W -> outcome unit * W;
  session_exit : Session -> W -> outcome unit * W;
  sdk_initialize : Session -> W -> outcome unit * W;
  sdk_list_tools : Session -> W -> outcome (list Tool) * W;
  sdk_call_tool :
    Session -> string -> gmap string string -> W -> outcome CallToolResult * W
}.
Arguments stdio_enter {W}.
Arguments stdio_exit {W}.
Arguments session_enter {W}.
Arguments session_exit {W}.
Arguments sdk_initialize {W}.
Arguments sdk_list_tools {W}.
Arguments sdk_call_tool {W}.

(** ** The monad of the coroutines: state, trace, exceptions, blocking *)

(** The state a coroutine runs in: the world outside, and the number the
    next session will get (it tells the sessions of one call apart). *)
Record St (W : Type) := mkSt {
  world : W;
  next_sid : nat
}.
Arguments mkSt {W}.
Arguments world {W}.
Arguments next_sid {W}.

Definition M (W A : Type) : Type := St W -> outcome A * St W * list event.

Definition ret {W A} (a : A) : M W A := fun s => (Ok a, s, []).

Definition raise {W A} (e : exn) : M W A := fun s => (Raise e, s, []).

Definition bind {W A B} (m : M W A) (f : A -> M W B) : M W B :=
  fun s =>
    match m s with
    | (Ok a, s1, t1) =>
        match f a s1 with
        | (o, s2, t2) => (o, s2, t1 ++ t2)
        end
    | (Raise e, s1, t1) => (Raise e, s1, t1)
    | (Hang, s1, t1) => (Hang, s1, t1)
    end.

(** [try: m except Exception as e: h e] *)
Definition try_except {W A} (m : M W A) (h : exn -> M W A) : M W A :=
  fun s =>
    match m s with
    | (Raise e, s1, t1) =>
        match h e s1 with
        | (o, s2, t2) => (o, s2, t1 ++ t2)
        end
    | r => r
    end.

(** [async with enter as r: body r], for a context manager whose
    [__aexit__] does not swallow the exception of the body: [exit] runs
    whenever [enter] returned, and an exception of [exit] replaces the
    outcome of the body. *)
Definition async_with {W R A}
    (enter : M W R) (exit : R -> M W unit) (body : R -> M W A) : M W A :=
  fun s =>
    match enter s with
    | (Ok r, s1, t1) =>
        match body r s1 with
        | (Ok a, s2, t2) =>
            match exit r s2 with
            | (Ok _, s3, t3) => (Ok a, s3, t1 ++ t2 ++ t3)
            | (Raise e, s3, t3) => (Raise e, s3, t1 ++ t2 ++ t3)
            | (Hang, s3, t3) => (Hang, s3, t1 ++ t2 ++ t3)
            end
        | (Raise e, s2, t2) =>
            match exit r s2 with
            | (Ok _, s3, t3) => (Raise e, s3, t1 ++ t2 ++ t3)
            | (Raise e', s3, t3) => (Raise e', s3, t1 ++ t2 ++ t3)
            | (Hang, s3, t3) => (Hang, s3, t1 ++ t2 ++ t3)
            end
        | (Hang, s2, t2) => (Hang, s2, t1 ++ t2)
        end
    | (Raise e, s1, t1) => (Raise e, s1, t1)
    | (Hang, s1, t1) => (Hang, s1, t1)
    end.

Notation "'let*' x ':=' m 'in' k" := (bind m (fun x => k))
  (at level 10, x pattern, m at level 100, k at level 200).

Section Sessions.
Context {W : Type} (sdk : SDK W).

(** One request to the SDK, recorded with its answer. *)
Definition request {A} (ev : outcome A -> event) (op : W -> outcome A * W)
    : M W A :=
  fun s =>
    match op (world s) with
    | (o, w) => (o, mkSt w (next_sid s), [ev o])
    end.

(** [stdio_client(params).__aenter__]: the session gets the next number. *)
Definition stdio_client (p : StdioServerParameters) : M W Session :=
  fun s =>
    let sess := mkSession (next_sid s) p in
    match stdio_enter sdk sess (world s) with
    | (Ok _, w) => (Ok sess, mkSt w (S (next_sid s)), [EvSpawn sess (Ok tt)])
    | (Raise e, w) => (Raise e, mkSt w (S (next_sid s)), [EvSpawn sess (Raise e)])
    | (Hang, w) => (Hang, mkSt w (S (next_sid s)), [EvSpawn sess Hang])
    end.

(** [stdio_client(params).__aexit__] *)
Definition stdio_close (sess : Session) : M W unit :=
  request (EvTerminate sess) (stdio_exit sdk sess).

(** [ClientSession(read_stream, write_stream).__aenter__] *)
Definition client_session (sess : Session) : M W Session :=
  let* _ := request (EvSessionEnter sess) (session_enter sdk sess) in
  ret sess.

(** [ClientSession(...).__aexit__] *)
Definition session_close (sess : Session) : M W unit :=
  request (EvSessionExit sess) (session_exit sdk sess).

Definition session_initialize (sess : Session) : M W unit :=
  request (EvInitialize sess) (sdk_initialize sdk sess).

Definition session_list_tools (sess : Session) : M W (list Tool) :=
  request (EvListTools sess) (sdk_list_tools sdk sess).

Definition session_call_tool (sess : Session) (tool : string)
    (arguments : gmap string string) : M W CallToolResult :=
  request (EvCallTool sess tool arguments) (sdk_call_tool sdk sess tool arguments).

(** The parameters [_with_session] builds from a descriptor. *)
Definition session_params (srv : MCPServer) : StdioServerParameters :=
  mkParams (command srv) (args srv) (or_None (env srv)).

(** [MCPClient._with_session] *)
Definition _with_session {A} (srv : MCPServer) (coro : Session -> M W A) : M W A :=
  async_with (stdio_client (session_params srv)) stdio_close (fun streams =>
    async_with (client_session streams) session_close (fun session =>
      let* _ := session_initialize session in
      coro session)).

(** *** list_tools *)

Definition _list_run (session : Session) : M W (list string) :=
  let* tools := session_list_tools session in
  ret (tool_name <$> tools).

Definition _list_for_srv (srv : MCPServer) : M W (list string) :=
  try_except (_with_session srv _list_run) (fun _ => ret []).

(** The loop of [_gather], with [result] as it stands on entry. *)
Fixpoint _gather (servers : list MCPServer) (server_name : option string)
    (result : gmap string (list string)) : M W (gmap string (list string)) :=
  match servers with
  | [] => ret result
  | srv :: rest =>
      if truthy server_name && negb (bool_decide (Some (name srv) = server_name))
      then _gather rest server_name result
      else
        let* names := _list_for_srv srv in
        _gather rest server_name (<[name srv := names]> result)
  end.

Definition list_tools (servers : list MCPServer) (server_name : option string)
    : M W (gmap string (list string)) :=
  _gather servers server_name ∅.

(** *** call_tool *)

Definition tool_not_found : exn := RuntimeError "tool_not_found".

Definition getattr_content (result : CallToolResult) : ToolReturn :=
  match content result with
  | Some c => RetContent c
  | None => RetRaw result
  end.

Definition _run (tool : string) (arguments : gmap string string)
    (session : Session) : M W ToolReturn :=
  let* _ :=
    try_except
        (let* tools := session_list_tools session in
         if bool_decide (tool ∈ tool_name <$> tools)
         then ret tt
         else raise tool_not_found)
        (fun e => raise e) in
  let* result := session_call_tool session tool arguments in
  ret (getattr_content result).

Definition _try_call (tool : string) (arguments : gmap string string)
    (srv : MCPServer) : M W ToolReturn :=
  _with_session srv (_run tool arguments).

Definition no_matching_server : exn :=
  RuntimeError "未找到匹配的 MCP 服务器配置".

Definition invocation_failed (tool : string) (last_err : option exn) : exn :=
  RuntimeError ("工具调用失败：" +:+ tool +:+ "; 最后错误：" +:+ str_opt last_err).

(** The candidate list of [_run_all]. *)
Definition candidates (servers : list MCPServer) (server_name : option string)
    : list MCPServer :=
  List.filter
    (fun s => negb (truthy server_name) || bool_decide (Some (name s) = server_name))
    servers.

(** The [for srv in servers] loop of [_run_all], with [last_err] as it
    stands on entry. *)
Fixpoint scan (tool : string) (arguments : gmap string string)
    (servers : list MCPServer) (last_err : option exn) : M W ToolReturn :=
  match servers with
  | [] => raise (invocation_failed tool last_err)
  | srv :: rest =>
      try_except (_try_call tool arguments srv)
        (fun e => scan tool arguments rest (Some e))
  end.

Definition _run_all (servers : list MCPServer) (tool : string)
    (arguments : gmap string string) (server_name : option string)
    : M W ToolReturn :=
  match candidates servers server_name with
  | [] => raise no_matching_server
  | cs => scan tool arguments cs None
  end.

(** [MCPClient.call_tool]: [arguments or {}], then [asyncio.run(_run_all())]. *)
Definition call_tool (servers : list MCPServer) (tool : string)
    (arguments : option (gmap string string)) (server_name : option string)
    : M W ToolReturn :=
  _run_all servers tool (default ∅ arguments) server_name.

End Sessions.

(** ** The process supervisor *)

(** The operating system as the supervisor uses it: [os.environ],
    [subprocess.Popen(cmd, env=env)] ([None] when it raises) and
    [proc.poll()] ([None] while the process runs, else its return code). *)
Record OS (W : Type) := mkOS {
  environ : W -> gmap string string;
  popen : list string -> gmap string string -> W -> option nat * W;
  poll : nat -> W -> option Z * W
}.
Arguments environ {W}.
Arguments popen {W}.
Arguments poll {W}.

(** One [subprocess.Popen] call of [start_all]: the descriptor it is made
    for, the command line, the environment handed over and the process
    obtained. *)
Record popen_event := mkPopen {
  pe_server : MCPServer;
  pe_cmd : list string;
  pe_env : gmap string string;
  pe_proc : option nat
}.

(** The result of a run of [start_all]: the returned list, [self.processes]
    and the world afterwards, and the [Popen] calls made. *)
Record started_result (W : Type) := mkStarted {
  started : list string;
  processes : gmap string nat;
  os_world : W;
  spawned : list popen_event
}.
Arguments mkStarted {W}.
Arguments started {W}.
Arguments processes {W}.
Arguments os_world {W}.
Arguments spawned {W}.

Section Supervisor.
Context {W : Type} (os : OS W).

(** [srv.name in self.processes and self.processes[srv.name].poll() is None] *)
Definition is_running (procs : gmap string nat) (srv : MCPServer) (w : W)
    : bool * W :=
  match procs !! name srv with
  | Some proc =>
      match poll os proc w with
      | (None, w1) => (true, w1)
      | (Some _, w1) => (false, w1)
      end
  | None => (false, w)
  end.

(** [env = os.environ.copy(); env.update(srv.env or {})] *)
Definition launch_env (srv : MCPServer) (w : W) : gmap string string :=
  env srv ∪ environ os w.

(** [MCPClient.start_all], as the loop over [self.servers]. *)
Fixpoint start_all (servers : list MCPServer) (procs : gmap string nat) (w : W)
    : started_result W :=
  match servers with
  | [] => mkStarted [] procs w []
  | srv :: rest =>
      match is_running procs srv w with
      | (true, w1) => start_all rest procs w1
      | (false, w1) =>
          let cmd := command srv :: args srv in
          let env := launch_env srv w1 in
          match popen os cmd env w1 with
          | (Some proc, w2) =>
              let r := start_all rest (<[name srv := proc]> procs) w2 in
              mkStarted (name srv :: started r) (processes r) (os_world r)
                (mkPopen srv cmd env (Some proc) :: spawned r)
          | (None, w2) =>
              let r := start_all rest procs w2 in
              mkStarted (started r) (processes r) (os_world r)
                (mkPopen srv cmd env None :: spawned r)
          end
      end
  end.

End Supervisor.

(** ** Reading a trace *)

(** The parameters of the spawn requests, in the order they were made. *)
Definition spawn_requests (tr : list event) : list StdioServerParameters :=
  omap (fun ev => match ev with EvSpawn s _ => Some (params s) | _ => None end) tr.

(** [s] was opened: its spawn request returned. *)
Definition is_open (s : Session) (ev : event) : bool :=
  match ev with
  | EvSpawn s' (Ok _) => bool_decide (s' = s)
  | _ => false
  end.

(** [s] was torn down: [__aexit__] of its [stdio_client] was called. *)
Definition is_close (s : Session) (ev : event) : bool :=
  match ev with
  | EvTerminate s' _ => bool_decide (s' = s)
  | _ => false
  end.

Definition opens (s : Session) (tr : list event) : nat :=
  length (List.filter (is_open s) tr).

Definition closes (s : Session) (tr : list event) : nat :=
  length (List.filter (is_close s) tr).

(** The sessions whose process is running after [tr], given those running
    before it: a returned spawn adds one, a teardown removes it. *)
Fixpoint live_from (acc : list Session) (tr : list event) : list Session :=
  match tr with
  | [] => acc
  | EvSpawn s (Ok _) :: tr' => live_from (acc ++ [s]) tr'
  | EvTerminate s _ :: tr' =>
      live_from (List.filter (fun s' => negb (bool_decide (s' = s))) acc) tr'
  | _ :: tr' => live_from acc tr'
  end.

Definition live (tr : list event) : list Session := live_from [] tr.

(** An event of an open session that neither spawns nor tears down. *)
Definition inner (ev : event) : bool :=
  match ev with
  | EvSpawn _ _ | EvTerminate _ _ => false
  | _ => true
  end.

(** A protocol exchange on an initialised session. *)
Definition exchange (ev : event) : bool :=
  match ev with
  | EvListTools _ _ | EvCallTool _ _ _ _ => true
  | _ => false
  end.

Definition is_call (ev : event) : bool :=
  match ev with
  | EvCallTool _ _ _ _ => true
  | _ => false
  end.

(** Some request of the trace was never answered. *)
Definition unanswered (ev : event) : bool :=
  match ev with
  | EvSpawn _ Hang | EvTerminate _ Hang | EvSessionEnter _ Hang
  | EvSessionExit _ Hang | EvInitialize _ Hang | EvListTools _ Hang
  | EvCallTool _ _ _ Hang => true
  | _ => false
  end.

(** An operation handed to [_with_session] that only talks over the
    session it is given. *)
Definition exchange_only {W A} (coro : Session -> M W A) : Prop :=
  forall sess s,
    next_sid (coro sess s).1.2 = next_sid s /\
    Forall (fun ev => inner ev = true) (coro sess s).2.

Section FailedScan.
Context {W : Type} (sdk : SDK W).

(** The candidates [servers] are attempted one after the other from state
    [s] and every attempt raises: the last error, the state and the trace
    at the end ([None] as soon as an attempt returns or blocks). *)
Fixpoint all_fail (tool : string) (arguments : gmap string string)
    (servers : list MCPServer) (last_err : option exn) (s : St W)
    : option (option exn * St W * list event) :=
  match servers with
  | [] => Some (last_err, s, [])
  | srv :: rest =>
      match _try_call sdk tool arguments srv s with
      | (Raise e, s1, t1) =>
          match all_fail tool arguments rest (Some e) s1 with
          | Some (l, s2, t2) => Some (l, s2, t1 ++ t2)
          | None => None
          end
      | _ => None
      end
  end.
End FailedScan.

(** ** A concrete world, to run the client on *)

Module Demo.

Definition fs : MCPServer := mkServer "fs" "tool-fs" [] ∅.
Definition web : MCPServer :=
  mkServer "web" "tool-web" ["--port"; "0"] {["API_KEY" := "k"]}.
Definition fs_backup : MCPServer := mkServer "fs" "tool-web" [] ∅.
Definition broken : MCPServer := mkServer "broken" "no-such-binary" [] ∅.
Definition mute : MCPServer := mkServer "mute" "tool-mute" [] ∅.

Definition advertised (cmd : string) : list Tool :=
  if decide (cmd = "tool-fs") then [mkTool "list_dir" "list a directory"]
  else if decide (cmd = "tool-web")
  then [mkTool "fetch" "fetch a page"; mkTool "read_file" "read a file"]
  else [].

(** The world counts the requests made.  ["no-such-binary"] cannot be
    spawned, ["tool-mute"] never answers the handshake, ["tool-fs"] and
    ["tool-web"] advertise the tools above and answer every call. *)
Definition sdk : SDK nat := {|
  stdio_enter sess w :=
    (if decide (sp_command (params sess) = "no-such-binary")
     then Raise (PeerError "FileNotFoundError" "no-such-binary")
     else Ok tt, S w);
  stdio_exit _ w := (Ok tt, S w);
  session_enter _ w := (Ok tt, S w);
  session_exit _ w := (Ok tt, S w);
  sdk_initialize sess w :=
    (if decide (sp_command (params sess) = "tool-mute") then Hang else Ok tt, S w);
  sdk_list_tools sess w := (Ok (advertised (sp_command (params sess))), S w);
  sdk_call_tool sess tool arguments w :=
    (Ok (mkResult (Some [tool]) false), S w)
|}.

Definition s0 : St nat := mkSt 0 0.

(** The operating system: the next process id and the processes that
    have exited. *)
Definition os : OS (nat * list nat) := {|
  environ _ := {["PATH" := "/usr/bin"; "API_KEY" := "inherited"]};
  popen cmd _ w :=
    if decide (cmd = ["no-such-binary"]) then (None, w)
    else (Some w.1, (S w.1, w.2));
  poll proc w := (if decide (proc ∈ w.2) then Some 0%Z else None, w)
|}.

End Demo.

(** ** The shape of one session *)

(** What follows the spawn of an opened session when the call comes back:
    events of the open session, then its teardown, which is the last
    event. *)
Inductive torn_down (sess : Session) : list event -> Prop :=
| torn_down_end rep : torn_down sess [EvTerminate sess rep]
| torn_down_step ev tr :
    inner ev = true -> torn_down sess tr -> torn_down sess (ev :: tr).

(** The trace of one run of [_with_session] that came back: the spawn
    failed and nothing was opened, or the session was opened and torn
    down. *)
Inductive session_trace (sess : Session) : list event -> Prop :=
| session_not_opened e : session_trace sess [EvSpawn sess (Raise e)]
| session_closed tr :
    torn_down sess tr -> session_trace sess (EvSpawn sess (Ok tt) :: tr).

(** Sessions numbered [n], ..., [n' - 1] were run one after the other,
    and each came back. *)
Inductive sessions_trace : nat -> nat -> list event -> Prop :=
| sessions_nil n : sessions_trace n n []
| sessions_cons n n' p t tr :
    session_trace (mkSession n p) t ->
    sessions_trace (S n) n' tr ->
    sessions_trace n n' (t ++ tr).

(** Every opened session is torn down exactly once, and nothing is left
    running. *)
Definition torn_down_once (tr : list event) : Prop :=
  live tr = [] /\
  forall sess, opens sess tr <= 1 /\ closes sess tr = opens sess tr.

(** A [Popen] call that gave a process. *)
Definition launched (ev : popen_event) : bool :=
  match pe_proc ev with
  | Some _ => true
  | None => false
  end.

(** ** The process table as Python keeps it

    A Python dict keeps its keys in the order they were first set;
    [stop_all] and [get_status] go through [self.processes] in that order. *)

Section PyDict.
Context {V : Type}.

(** [d.get(k)] *)
Fixpoint pd_get (d : list (string * V)) (k : string) : option V :=
  match d with
  | [] => None
  | (k', v) :: d' => if decide (k' = k) then Some v else pd_get d' k
  end.

(** [d[k] = v]: in place when the key is there, at the end when not. *)
Fixpoint pd_set (d : list (string * V)) (k : string) (v : V) : list (string * V) :=
  match d with
  | [] => [(k, v)]
  | (k', v') :: d' =>
      if decide (k' = k) then (k, v) :: d' else (k', v') :: pd_set d' k v
  end.

(** [d.setdefault(k, v)] *)
Definition pd_setdefault (d : list (string * V)) (k : string) (v : V)
    : list (string * V) :=
  match pd_get d k with
  | Some _ => d
  | None => d ++ [(k, v)]
  end.

(** [d.pop(k, None)] *)
Definition pd_pop (d : list (string * V)) (k : string) : list (string * V) :=
  List.filter (fun kv => negb (bool_decide (kv.1 = k))) d.

End PyDict.

(** The result of [start_all] with [self.processes] as a dict. *)
Record dict_started (W : Type) := mkDictStarted {
  ds_started : list string;
  ds_processes : list (string * nat);
  ds_world : W;
  ds_spawned : list popen_event
}.
Arguments mkDictStarted {W}.
Arguments ds_started {W}.
Arguments ds_processes {W}.
Arguments ds_world {W}.
Arguments ds_spawned {W}.

(** The result of [stop_all]: the returned list, [self.processes] and the
    world afterwards, and the calls of [terminate]: on which entry, and
    whether the call returned. *)
Record stopped_result (W : Type) := mkStopped {
  stopped : list string;
  remaining : list (string * nat);
  stop_world : W;
  terminated : list (string * nat * bool)
}.
Arguments mkStopped {W}.
Arguments stopped {W}.
Arguments remaining {W}.
Arguments stop_world {W}.
Arguments terminated {W}.

Section ProcessTable.
Context {W : Type} (os : OS W).

(** [proc.terminate()]: [true] when it returns, [false] when it raises. *)
Context (terminate : nat -> W -> bool * W).

(** [MCPClient.list_configured] *)
Definition list_configured (servers : list MCPServer) : list string :=
  name <$> servers.

(** [srv.name in self.processes and self.processes[srv.name].poll() is None] *)
Definition is_running_dict (procs : list (string * nat)) (srv : MCPServer) (w : W)
    : bool * W :=
  match pd_get procs (name srv) with
  | Some proc =>
      match poll os proc w with
      | (None, w1) => (true, w1)
      | (Some _, w1) => (false, w1)
      end
  | None => (false, w)
  end.

(** [MCPClient.start_all], with [self.processes] as a dict. *)
Fixpoint start_all_dict (servers : list MCPServer) (procs : list (string * nat))
    (w : W) : dict_started W :=
  match servers with
  | [] => mkDictStarted [] procs w []
  | srv :: rest =>
      match is_running_dict procs srv w with
      | (true, w1) => start_all_dict rest procs w1
      | (false, w1) =>
          let cmd := command srv :: args srv in
          let env := launch_env os srv w1 in
          match popen os cmd env w1 with
          | (Some proc, w2) =>
              let r := start_all_dict rest (pd_set procs (name srv) proc) w2 in
              mkDictStarted (name srv :: ds_started r) (ds_processes r) (ds_world r)
                (mkPopen srv cmd env (Some proc) :: ds_spawned r)
          | (None, w2) =>
              let r := start_all_dict rest procs w2 in
              mkDictStarted (ds_started r) (ds_processes r) (ds_world r)
                (mkPopen srv cmd env None :: ds_spawned r)
          end
      end
  end.

(** The first loop of [get_status]: [status[name] = (proc.poll() is None)]
    for the items of [self.processes]. *)
Fixpoint poll_all (items : list (string * nat)) (status : list (string * bool))
    (w : W) : list (string * bool) * W :=
  match items with
  | [] => (status, w)
  | (n, proc) :: rest =>
      match poll os proc w with
      | (None, w1) => poll_all rest (pd_set status n true) w1
      | (Some _, w1) => poll_all rest (pd_set status n false) w1
      end
  end.

(** The second loop of [get_status]: [status.setdefault(srv.name, False)]. *)
Fixpoint default_stopped (servers : list MCPServer) (status : list (string * bool))
    : list (string * bool) :=
  match servers with
  | [] => status
  | srv :: rest => default_stopped rest (pd_setdefault status (name srv) false)
  end.

(** [MCPClient.get_status] *)
Definition get_status (servers : list MCPServer) (procs : list (string * nat))
    (w : W) : list (string * bool) * W :=
  match poll_all procs [] w with
  | (status, w1) => (default_stopped servers status, w1)
  end.

(** The loop of [stop_all] over the snapshot [items], with
    [self.processes] as it stands on entry. *)
Fixpoint stop_loop (items procs : list (string * nat)) (w : W) : stopped_result W :=
  match items with
  | [] => mkStopped [] procs w []
  | (n, proc) :: rest =>
      match terminate proc w with
      | (true, w1) =>
          let r := stop_loop rest (pd_pop procs n) w1 in
          mkStopped (n :: stopped r) (remaining r) (stop_world r)
            ((n, proc, true) :: terminated r)
      | (false, w1) =>
          let r := stop_loop rest (pd_pop procs n) w1 in
          mkStopped (stopped r) (remaining r) (stop_world r)
            ((n, proc, false) :: terminated r)
      end
  end.

(** [MCPClient.stop_all]: the loop runs over [list(self.processes.items())]. *)
Definition stop_all (procs : list (string * nat)) (w : W) : stopped_result W :=
  stop_loop procs procs w.

End ProcessTable.

(** ** The agent, the configuration and the model adapters *)

(** [agent.config.Config]; [F] stands for Python's floats. *)
Record Config (F : Type) := mkConfig {
  provider : string;
  model_name : string;
  max_new_tokens : Z;
  temperature : F;
  device : string;
  mcp_servers : list MCPServer
}.
Arguments mkConfig {F}.
Arguments provider {F}.
Arguments model_name {F}.
Arguments max_new_tokens {F}.
Arguments temperature {F}.
Arguments device {F}.
Arguments mcp_servers {F}.

(** The adapter an agent is built with, as the parameters its constructor
    is called with (the constructors are taken to return). *)
Inductive adapter (F : Type) :=
| OllamaAdapter (model : string) (temp : F) (tokens : Z)
| HFAdapter (model : string) (dev : string) (temp : F) (tokens : Z).
Arguments OllamaAdapter {F}.
Arguments HFAdapter {F}.

(** [agent.core.agent.ChatAgent] *)
Record ChatAgent (F : Type) := mkAgent {
  cfg : Config F;
  model : adapter F;
  mcp_client : option (list MCPServer)
}.
Arguments mkAgent {F}.
Arguments cfg {F}.
Arguments model {F}.
Arguments mcp_client {F}.

(** The keyword arguments [call_tool] takes besides the tool name. *)
Record tool_kwargs := mkKwargs {
  kw_arguments : option (gmap string string);
  kw_server_name : option string
}.

Section Agent.
Context {F : Type}.

(** [int(s)] and [float(s)]: [None] when they raise [ValueError]. *)
Context (py_int : string -> option Z) (py_float : string -> option F).

(** The overrides of [load_config] from the environment ([getenv] is
    [os.getenv]), one for each [if] of the source. *)
Definition env_provider (getenv : string -> option string) (c : Config F)
    : Config F :=
  match getenv "AGENT_PROVIDER" with
  | Some (String a p) =>
      mkConfig (String a p) (model_name c) (max_new_tokens c) (temperature c)
        (device c) (mcp_servers c)
  | _ => c
  end.

Definition env_model_name (getenv : string -> option string) (c : Config F)
    : Config F :=
  match getenv "AGENT_MODEL_NAME" with
  | Some (String a m) =>
      mkConfig (provider c) (String a m) (max_new_tokens c) (temperature c)
        (device c) (mcp_servers c)
  | _ => c
  end.

Definition env_max_new_tokens (getenv : string -> option string) (c : Config F)
    : Config F :=
  match getenv "AGENT_MAX_NEW_TOKENS" with
  | Some (String a m) =>
      match py_int (String a m) with
      | Some n =>
          mkConfig (provider c) (model_name c) n (temperature c) (device c)
            (mcp_servers c)
      | None => c
      end
  | _ => c
  end.

Definition env_temperature (getenv : string -> option string) (c : Config F)
    : Config F :=
  match getenv "AGENT_TEMPERATURE" with
  | Some (String a t) =>
      match py_float (String a t) with
      | Some x =>
          mkConfig (provider c) (model_name c) (max_new_tokens c) x (device c)
            (mcp_servers c)
      | None => c
      end
  | _ => c
  end.

Definition env_device (getenv : string -> option string) (c : Config F)
    : Config F :=
  match getenv "AGENT_DEVICE" with
  | Some (String a d) =>
      mkConfig (provider c) (model_name c) (max_new_tokens c) (temperature c)
        (String a d) (mcp_servers c)
  | _ => c
  end.

(** The second half of [load_config]: the overrides from the environment,
    applied in the order of the source to the configuration read from the
    file. *)
Definition load_config (getenv : string -> option string) (file_cfg : Config F)
    : Config F :=
  env_device getenv
    (env_temperature getenv
       (env_max_new_tokens getenv
          (env_model_name getenv (env_provider getenv file_cfg)))).

(** The overrides of the commands [chat], [run] and [batch]:
    [if provider: cfg.provider = provider], [if model: cfg.model_name = model]. *)
Definition cli_overrides (provider_opt model_opt : option string) (c : Config F)
    : Config F :=
  let c :=
    match provider_opt with
    | Some (String a p) =>
        mkConfig (String a p) (model_name c) (max_new_tokens c) (temperature c)
          (device c) (mcp_servers c)
    | _ => c
    end in
  match model_opt with
  | Some (String a m) =>
      mkConfig (provider c) (String a m) (max_new_tokens c) (temperature c)
        (device c) (mcp_servers c)
  | _ => c
  end.

(** [ChatAgent.__init__]: the agent, or the message of the [ValueError]. *)
Definition ChatAgent_init (c : Config F) : string + ChatAgent F :=
  if decide (provider c = "ollama")
  then inr (mkAgent c (OllamaAdapter (model_name c) (temperature c) (max_new_tokens c)) None)
  else if decide (provider c = "huggingface")
  then inr (mkAgent c (HFAdapter (model_name c) (device c) (temperature c)
                         (max_new_tokens c)) None)
  else inl ("Unknown provider: " +:+ provider c).

(** [ChatAgent.list_mcp_servers] *)
Definition list_mcp_servers (a : ChatAgent F) : list string :=
  name <$> mcp_servers (cfg a).

(** [ChatAgent.attach_mcp_client]; a client is known by its registry. *)
Definition attach_mcp_client (a : ChatAgent F) (client : list MCPServer)
    : ChatAgent F :=
  mkAgent (cfg a) (model a) (Some client).

(** [ChatAgent.use_tool] *)
Definition use_tool {W} (sdk : SDK W) (a : ChatAgent F) (tool : string)
    (kwargs : tool_kwargs) : M W ToolReturn :=
  match mcp_client a with
  | None => raise (RuntimeError "MCP 客户端尚未注入，无法调用工具")
  | Some servers =>
      call_tool sdk servers tool (kw_arguments kwargs) (kw_server_name kwargs)
  end.

End Agent.

(** [s[n:]] *)
Fixpoint string_skip (n : nat) (s : string) : string :=
  match n, s with
  | 0, _ => s
  | S n', String _ s' => string_skip n' s'
  | S _, EmptyString => EmptyString
  end.

(** The end of [HFAdapter.generate]: what is yielded for the decoded
    [text] ([text.startswith(prompt)], then [text[len(prompt):]]; a string
    is the sequence of the bytes of its characters, on which both come to
    the same as on the characters). *)
Definition hf_output (prompt text : string) : list string :=
  if String.prefix prompt text
  then [string_skip (String.length prompt) text]
  else [text].

(** [chunk.get("message", {}).get("content", "")].  The content of a
    message is a string or [None]; the default [""] stands in for a content
    that is missing only, a content that is [None] is returned as it is. *)
Definition chunk_content (chunk : gmap string (gmap string (option string)))
    : option string :=
  default (Some "") (default ∅ (chunk !! "message") !! "content").

(** [OllamaAdapter.generate]: what is yielded, for the chunks of the
    streamed chat and for the response of the plain one ([if content:] is
    the truthiness of a string or [None]). *)
Definition ollama_output (stream : bool)
    (chunks : list (gmap string (gmap string (option string))))
    (resp : gmap string (gmap string (option string))) : list (option string) :=
  if stream
  then List.filter truthy (chunk_content <$> chunks)
  else [chunk_content resp].

(** [""] [.join(chunks)] *)
Definition join (chunks : list string) : string :=
  foldr String.append "" chunks.

(** The strings among the values yielded. *)
Definition texts (yielded : list (option string)) : list string :=
  omap id yielded.

(** The entries of the process table that a list of [Popen] calls gives:
    one for each call that gave a process, under the name of its server. *)
Definition launched_entries (evs : list popen_event) : list (string * nat) :=
  omap (fun ev => (fun proc => (name (pe_server ev), proc)) <$> pe_proc ev) evs.

(** [terminate] for the operating system of [Demo]: the process is
    recorded as exited. *)
Module DemoTable.

Definition terminate (proc : nat) (w : nat * list nat) : bool * (nat * list nat) :=
  (true, (w.1, proc :: w.2)).

End DemoTable.

(** A request of the trace was answered with an exception. *)
Definition raised (ev : event) : bool :=
  match ev with
  | EvSpawn _ (Raise _) | EvTerminate _ (Raise _) | EvSessionEnter _ (Raise _)
  | EvSessionExit _ (Raise _) | EvInitialize _ (Raise _)
  | EvListTools _ (Raise _) | EvCallTool _ _ _ (Raise _) => true
  | _ => false
  end.

(** A world like that of [Demo], in which the teardown of the process of
    ["tool-fs"] raises. *)
Module DemoTeardown.

Definition sdk : SDK nat := {|
  stdio_enter := stdio_enter Demo.sdk;
  stdio_exit sess w :=
    (if decide (sp_command (params sess) = "tool-fs")
     then Raise (PeerError "ProcessLookupError" "no such process")
     else Ok tt, S w);
  session_enter := session_enter Demo.sdk;
  session_exit := session_exit Demo.sdk;
  sdk_initialize := sdk_initialize Demo.sdk;
  sdk_list_tools := sdk_list_tools Demo.sdk;
  sdk_call_tool := sdk_call_tool Demo.sdk
|}.

End DemoTeardown.

(** The value of a text field after an override: the variable if it is
    set and not empty, else the value there was. *)
Definition override_text (v : option string) (old : string) : string :=
  match v with
  | Some (String a s) => String a s
  | _ => old
  end.

(** The value of a numeric field after an override: what the variable
    parses to if it is set, not empty and parses, else the value there was. *)
Definition override_number {A} (parse : string -> option A) (v : option string)
    (old : A) : A :=
  match v with
  | Some (String a s) => default old (parse (String a s))
  | _ => old
  end.

(** An environment with the variable [k] unset. *)
Definition unset (k : string) (getenv : string -> option string)
    : string -> option string :=
  fun k' => if decide (k' = k) then None else getenv k'.

(** A configuration file and an environment to run the agent on; floats
    are kept as tenths. *)
Module DemoConfig.

Definition file_cfg : Config Z :=
  mkConfig "ollama" "llama3" 256%Z 7%Z "cpu" [Demo.fs].

Definition py_int (v : string) : option Z :=
  if decide (v = "512") then Some 512%Z else None.

Definition py_float (v : string) : option Z :=
  if decide (v = "0.2") then Some 2%Z else None.

Definition getenv (k : string) : option string :=
  if decide (k = "AGENT_PROVIDER") then Some "huggingface"
  else if decide (k = "AGENT_MODEL_NAME") then Some ""
  else if decide (k = "AGENT_MAX_NEW_TOKENS") then Some "many"
  else None.

Definition no_env (k : string) : option string := None.

End DemoConfig.

Lemma opens_app sess t1 t2 : opens sess (t1 ++ t2) = opens sess t1 + opens sess t2.
Proof. unfold opens. by rewrite List.filter_app, length_app. Qed.

Lemma closes_app sess t1 t2 :
  closes sess (t1 ++ t2) = closes sess t1 + closes sess t2.
Proof. unfold closes. by rewrite List.filter_app, length_app. Qed.

Lemma live_from_app acc t1 t2 :
  live_from acc (t1 ++ t2) = live_from (live_from acc t1) t2.
Proof.
  revert acc. induction t1 as [|ev t1 IH]; intros acc; [done|].
  destruct ev as [x [[]| |]| | | | | |]; simpl; apply IH.
Qed.

Lemma spawn_requests_app t1 t2 :
  spawn_requests (t1 ++ t2) = spawn_requests t1 ++ spawn_requests t2.
Proof. unfold spawn_requests. apply omap_app. Qed.

Lemma inner_opens sess tr :
  Forall (fun ev => inner ev = true) tr -> opens sess tr = 0.
Proof.
  induction 1 as [|ev tr Hev _ IH]; [done|].
  destruct ev; try discriminate; exact IH.
Qed.

Lemma inner_closes sess tr :
  Forall (fun ev => inner ev = true) tr -> closes sess tr = 0.
Proof.
  induction 1 as [|ev tr Hev _ IH]; [done|].
  destruct ev; try discriminate; exact IH.
Qed.

Lemma inner_live_from acc tr :
  Forall (fun ev => inner ev = true) tr -> live_from acc tr = acc.
Proof.
  induction 1 as [|ev tr Hev _ IH]; [done|].
  destruct ev; try discriminate; exact IH.
Qed.

Lemma inner_spawn_requests tr :
  Forall (fun ev => inner ev = true) tr -> spawn_requests tr = [].
Proof.
  induction 1 as [|ev tr Hev _ IH]; [done|].
  destruct ev; try discriminate; exact IH.
Qed.

Lemma torn_down_app sess t tr :
  Forall (fun ev => inner ev = true) t ->
  torn_down sess tr -> torn_down sess (t ++ tr).
Proof.
  induction 1 as [|ev t Hev _ IH]; intros Htr; [done|].
  simpl. apply torn_down_step; auto.
Qed.

Lemma torn_down_opens sess x tr : torn_down sess tr -> opens x tr = 0.
Proof.
  induction 1 as [rep|ev tr Hev _ IH]; [done|].
  destruct ev; try discriminate; exact IH.
Qed.

Lemma torn_down_closes sess x tr :
  torn_down sess tr -> closes x tr = if decide (sess = x) then 1 else 0.
Proof.
  induction 1 as [rep|ev tr Hev _ IH].
  - unfold closes. simpl. rewrite bool_decide_decide. by destruct (decide _).
  - destruct ev; try discriminate; exact IH.
Qed.

Lemma torn_down_live sess tr : torn_down sess tr -> live_from [sess] tr = [].
Proof.
  induction 1 as [rep|ev tr Hev _ IH].
  - simpl. by rewrite bool_decide_true.
  - destruct ev; try discriminate; exact IH.
Qed.

Lemma torn_down_spawn_requests sess tr :
  torn_down sess tr -> spawn_requests tr = [].
Proof.
  induction 1 as [rep|ev tr Hev _ IH]; [done|].
  destruct ev; try discriminate; exact IH.
Qed.

Lemma session_trace_live sess tr : session_trace sess tr -> live tr = [].
Proof. destruct 1 as [e|tr Htr]; [done|]. exact (torn_down_live _ _ Htr). Qed.

Lemma session_trace_opens sess x tr :
  session_trace sess tr ->
  opens x tr <= 1 /\ closes x tr = opens x tr /\ (0 < opens x tr -> x = sess).
Proof.
  destruct 1 as [e|tr Htr].
  - unfold opens, closes. simpl. repeat split; lia.
  - change (EvSpawn sess (Ok ()) :: tr) with ([EvSpawn sess (Ok ())] ++ tr).
    rewrite opens_app, closes_app, (torn_down_opens _ x _ Htr),
      (torn_down_closes _ x _ Htr).
    unfold opens, closes. simpl. rewrite bool_decide_decide.
    destruct (decide (sess = x)); simpl; repeat split; auto; lia.
Qed.

Lemma sessions_trace_le n n' tr : sessions_trace n n' tr -> n <= n'.
Proof. induction 1; lia. Qed.

Lemma sessions_trace_app n1 n2 n3 t1 t2 :
  sessions_trace n1 n2 t1 -> sessions_trace n2 n3 t2 ->
  sessions_trace n1 n3 (t1 ++ t2).
Proof.
  induction 1 as [|n n' p t tr Hs _ IH]; intros H2; [done|].
  rewrite <- app_assoc. econstructor; eauto.
Qed.

Lemma sessions_trace_one n p t :
  session_trace (mkSession n p) t -> sessions_trace n (S n) t.
Proof.
  intros H. rewrite <- (app_nil_r t). econstructor; [exact H|constructor].
Qed.

Lemma sessions_trace_opens n n' tr x :
  sessions_trace n n' tr ->
  opens x tr <= 1 /\ closes x tr = opens x tr /\
  (0 < opens x tr -> n <= sid x < n').
Proof.
  induction 1 as [|n n' p t tr Hs Hrest IH]; [unfold opens, closes; simpl; lia|].
  destruct IH as (IH1 & IH2 & IH3).
  destruct (session_trace_opens _ x _ Hs) as (H1 & H2 & H3).
  apply sessions_trace_le in Hrest.
  rewrite opens_app, closes_app.
  assert (0 < opens x t -> sid x = n) by (intros Hx; by rewrite (H3 Hx)).
  repeat split; lia.
Qed.

Lemma sessions_trace_live n n' tr : sessions_trace n n' tr -> live tr = [].
Proof.
  induction 1 as [|n n' p t tr Hs _ IH]; [done|].
  unfold live. rewrite live_from_app.
  by rewrite (session_trace_live _ _ Hs : live_from [] t = []).
Qed.

Lemma sessions_trace_torn_down_once n n' tr :
  sessions_trace n n' tr -> torn_down_once tr.
Proof.
  intros H. split; [exact (sessions_trace_live _ _ _ H)|].
  intros sess. destruct (sessions_trace_opens _ _ _ sess H) as (? & ? & _); auto.
Qed.

(** ** One run of the session runner *)

Section SessionFacts.
Context {W : Type} (sdk : SDK W).

Local Ltac unfold_session :=
  unfold _with_session, async_with, stdio_client, stdio_close,
    client_session, session_close, session_initialize, request, bind, ret.

Local Ltac close_shape :=
  simpl; rewrite ?app_nil_r, <- ?app_assoc; simpl;
  repeat first
    [ apply torn_down_end
    | apply torn_down_step; [reflexivity|]
    | apply torn_down_app; [eassumption|] ].

(** The session runner numbers its session with the next free number,
    whatever happens then. *)
Lemma with_session_next_sid {A} srv (coro : Session -> M W A) s :
  exchange_only coro ->
  next_sid (_with_session sdk srv coro s).1.2 = S (next_sid s).
Proof.
  intros Hc. unfold_session.
  destruct (stdio_enter sdk _ (world s)) as [[[]| |] w1]; simpl; try done.
  destruct (session_enter sdk _ w1) as [[[]| |] w2]; simpl;
    try (destruct (stdio_exit sdk _ w2) as [[[]| |] w3]; done); try done.
  destruct (sdk_initialize sdk _ w2) as [[[]| |] w3]; simpl.
  - match goal with |- context [coro ?x ?y] =>
      destruct (Hc x y) as [Hn _]; destruct (coro x y) as [[[a| |] s4] t4]
    end; simpl in *;
      repeat (match goal with |- context [match ?op with _ => _ end] =>
                destruct op as [[[]| |] ?] end; simpl); done.
  - repeat (match goal with |- context [match ?op with _ => _ end] =>
              destruct op as [[[]| |] ?] end; simpl); done.
  - done.
Qed.

(** A run that came back either failed to spawn, or opened its session
    and tore it down as its last step. *)
Lemma with_session_trace {A} srv (coro : Session -> M W A) s :
  exchange_only coro ->
  (_with_session sdk srv coro s).1.1 <> Hang ->
  session_trace (mkSession (next_sid s) (session_params srv))
    (_with_session sdk srv coro s).2.
Proof.
  intros Hc. unfold_session.
  destruct (stdio_enter sdk _ (world s)) as [[[]| |] w1]; simpl;
    [|intros _; constructor|done].
  destruct (session_enter sdk _ w1) as [[[]| |] w2]; simpl.
  - destruct (sdk_initialize sdk _ w2) as [[[]| |] w3]; simpl.
    + match goal with |- context [coro ?x ?y] =>
        destruct (Hc x y) as [_ Hin]; destruct (coro x y) as [[[a| |] s4] t4]
      end; simpl in *;
        repeat (match goal with |- context [match ?op with _ => _ end] =>
                  destruct op as [[[]| |] ?] end; simpl);
        try done; intros _; constructor; close_shape.
    + repeat (match goal with |- context [match ?op with _ => _ end] =>
                destruct op as [[[]| |] ?] end; simpl);
        try done; intros _; constructor; close_shape.
    + done.
  - destruct (stdio_exit sdk _ w2) as [[[]| |] w3]; simpl;
      try done; intros _; constructor; close_shape.
  - done.
Qed.

(** Exactly one spawn request is made, with the parameters built from
    the descriptor. *)
Lemma with_session_spawn_requests {A} srv (coro : Session -> M W A) s :
  exchange_only coro ->
  spawn_requests (_with_session sdk srv coro s).2 = [session_params srv].
Proof.
  intros Hc. unfold_session.
  destruct (stdio_enter sdk _ (world s)) as [[[]| |] w1]; simpl; try done.
  destruct (session_enter sdk _ w1) as [[[]| |] w2]; simpl;
    try (destruct (stdio_exit sdk _ w2) as [[[]| |] w3]; done); try done.
  destruct (sdk_initialize sdk _ w2) as [[[]| |] w3]; simpl.
  - match goal with |- context [coro ?x ?y] =>
      destruct (Hc x y) as [_ Hin]; destruct (coro x y) as [[[a| |] s4] t4]
    end; simpl in *;
      repeat (match goal with |- context [match ?op with _ => _ end] =>
                destruct op as [[[]| |] ?] end; simpl);
      pose proof (inner_spawn_requests _ Hin) as E;
      unfold spawn_requests in *; simpl; rewrite ?omap_app, ?E; done.
  - repeat (match goal with |- context [match ?op with _ => _ end] =>
              destruct op as [[[]| |] ?] end; simpl); done.
  - done.
Qed.

End SessionFacts.

(** ** The two operations run inside a session *)

Section Operations.
Context {W : Type} (sdk : SDK W).

Lemma list_run_exchange_only : exchange_only (_list_run sdk).
Proof.
  intros sess s. unfold _list_run, session_list_tools, request, bind, ret.
  destruct (sdk_list_tools sdk sess (world s)) as [[tools| |] w1]; simpl;
    repeat constructor.
Qed.

Lemma run_exchange_only tool arguments : exchange_only (_run sdk tool arguments).
Proof.
  intros sess s.
  unfold _run, session_list_tools, session_call_tool, try_except, request,
    bind, ret, raise.
  destruct (sdk_list_tools sdk sess (world s)) as [[tools| |] w1]; simpl;
    [|repeat constructor..].
  destruct (bool_decide (tool ∈ tool_name <$> tools)); simpl;
    [|repeat constructor].
  destruct (sdk_call_tool sdk sess tool arguments w1) as [[r| |] w2]; simpl;
    repeat constructor.
Qed.

(** One attempt of [call_tool] on one candidate. *)
Lemma try_call_inv tool arguments srv s o s' tr :
  _try_call sdk tool arguments srv s = (o, s', tr) ->
  next_sid s' = S (next_sid s) /\
  spawn_requests tr = [session_params srv] /\
  (o <> Hang -> session_trace (mkSession (next_sid s) (session_params srv)) tr).
Proof.
  intros E. unfold _try_call in E.
  pose proof (with_session_next_sid sdk srv _ s (run_exchange_only tool arguments)) as H1.
  pose proof (with_session_spawn_requests sdk srv _ s (run_exchange_only tool arguments)) as H2.
  pose proof (with_session_trace sdk srv _ s (run_exchange_only tool arguments)) as H3.
  rewrite E in H1, H2, H3. auto.
Qed.

(** The query of one server by [list_tools] never raises: a failure
    becomes the empty list. *)
Lemma list_for_srv_inv srv s o s' tr :
  _list_for_srv sdk srv s = (o, s', tr) ->
  next_sid s' = S (next_sid s) /\
  spawn_requests tr = [session_params srv] /\
  (forall e, o <> Raise e) /\
  (o <> Hang -> session_trace (mkSession (next_sid s) (session_params srv)) tr) /\
  (forall e, (_with_session sdk srv (_list_run sdk) s).1.1 = Raise e -> o = Ok []).
Proof.
  unfold _list_for_srv, try_except, ret.
  pose proof (with_session_next_sid sdk srv _ s list_run_exchange_only) as H1.
  pose proof (with_session_spawn_requests sdk srv _ s list_run_exchange_only) as H2.
  pose proof (with_session_trace sdk srv _ s list_run_exchange_only) as H3.
  destruct (_with_session sdk srv (_list_run sdk) s) as [[[names|e|] s1] t1];
    simpl in *; intros E; simplify_eq; rewrite ?app_nil_r;
    repeat split; auto; try done.
Qed.

End Operations.

(** ** The failover scan of call_tool *)

Section Scan.
Context {W : Type} (sdk : SDK W).

Lemma candidates_unpinned servers server_name :
  truthy server_name = false -> candidates servers server_name = servers.
Proof.
  intros Hsn. unfold candidates. rewrite Hsn. simpl.
  induction servers as [|srv rest IH]; simpl; by rewrite ?IH.
Qed.

Lemma candidates_pinned servers n :
  n <> "" ->
  candidates servers (Some n) =
  List.filter (fun s => bool_decide (name s = n)) servers.
Proof.
  intros Hn. unfold candidates.
  assert (truthy (Some n) = true) as -> by (by destruct n).
  simpl. induction servers as [|srv rest IH]; [done|]. simpl. rewrite IH.
  destruct (decide (name srv = n)) as [->|Hne].
  - by rewrite !bool_decide_true.
  - rewrite !bool_decide_false; [done|done|congruence].
Qed.

Lemma candidates_empty_name servers : candidates servers (Some "") = servers.
Proof. by apply candidates_unpinned. Qed.

Lemma filter_name_absent servers n :
  n ∉ name <$> servers ->
  List.filter (fun s => bool_decide (name s = n)) servers = [].
Proof.
  induction servers as [|srv rest IH]; [done|]. simpl.
  rewrite not_elem_of_cons. intros [Hne Hrest].
  rewrite bool_decide_false by congruence. auto.
Qed.

(** A failed attempt hands over to the rest of the list, with its
    exception as the last error. *)
Lemma scan_advance tool arguments srv rest last_err s e s1 t1 :
  _try_call sdk tool arguments srv s = (Raise e, s1, t1) ->
  scan sdk tool arguments (srv :: rest) last_err s =
  (let '(o, s2, t2) := scan sdk tool arguments rest (Some e) s1 in
   (o, s2, t1 ++ t2)).
Proof.
  intros E. simpl. unfold try_except. rewrite E.
  by destruct (scan sdk tool arguments rest (Some e) s1) as [[o s2] t2].
Qed.

(** An attempt that returns ends the scan. *)
Lemma scan_return tool arguments srv rest last_err s r s1 t1 :
  _try_call sdk tool arguments srv s = (Ok r, s1, t1) ->
  scan sdk tool arguments (srv :: rest) last_err s = (Ok r, s1, t1).
Proof. intros E. simpl. unfold try_except. by rewrite E. Qed.

(** An attempt that blocks blocks the scan. *)
Lemma scan_blocked tool arguments srv rest last_err s s1 t1 :
  _try_call sdk tool arguments srv s = (Hang, s1, t1) ->
  scan sdk tool arguments (srv :: rest) last_err s = (Hang, s1, t1).
Proof. intros E. simpl. unfold try_except. by rewrite E. Qed.

Lemma scan_app tool arguments pre post last_err s l s1 t1 :
  all_fail sdk tool arguments pre last_err s = Some (l, s1, t1) ->
  scan sdk tool arguments (pre ++ post) last_err s =
  (let '(o, s2, t2) := scan sdk tool arguments post l s1 in
   (o, s2, t1 ++ t2)).
Proof.
  revert last_err s t1.
  induction pre as [|srv rest IH]; intros last_err s t1 Hfail; simpl in Hfail.
  - simplify_eq. simpl.
    by destruct (scan sdk tool arguments post l s1) as [[o s2] t2].
  - destruct (_try_call sdk tool arguments srv s) as [[[r|e|] s'] t'] eqn:E;
      try discriminate.
    destruct (all_fail sdk tool arguments rest (Some e) s')
      as [[[l' s''] t'']|] eqn:E'; [|discriminate].
    simplify_eq.
    change ((srv :: rest) ++ post) with (srv :: (rest ++ post)).
    rewrite (scan_advance _ _ _ _ _ _ _ _ _ E), (IH _ _ _ E').
    destruct (scan sdk tool arguments post l s1) as [[o s2] t2].
    by rewrite app_assoc.
Qed.

Lemma all_fail_snoc tool arguments cs c last_err s l s1 t1 e s2 t2 :
  all_fail sdk tool arguments cs last_err s = Some (l, s1, t1) ->
  _try_call sdk tool arguments c s1 = (Raise e, s2, t2) ->
  all_fail sdk tool arguments (cs ++ [c]) last_err s = Some (Some e, s2, t1 ++ t2).
Proof.
  revert last_err s t1.
  induction cs as [|srv rest IH]; intros last_err s t1 Hfail Hc; simpl in *.
  - simplify_eq. rewrite Hc. by rewrite app_nil_r.
  - destruct (_try_call sdk tool arguments srv s) as [[[r|e'|] s'] t'] eqn:E;
      try discriminate.
    destruct (all_fail sdk tool arguments rest (Some e') s')
      as [[[l' s''] t'']|] eqn:E'; [|discriminate].
    simplify_eq. rewrite (IH _ _ _ E' Hc). by rewrite app_assoc.
Qed.

Lemma all_fail_spawn_requests tool arguments cs last_err s l s1 t1 :
  all_fail sdk tool arguments cs last_err s = Some (l, s1, t1) ->
  spawn_requests t1 = session_params <$> cs.
Proof.
  revert last_err s t1.
  induction cs as [|srv rest IH]; intros last_err s t1 Hfail; simpl in *.
  - by simplify_eq.
  - destruct (_try_call sdk tool arguments srv s) as [[[r|e'|] s'] t'] eqn:E;
      try discriminate.
    destruct (all_fail sdk tool arguments rest (Some e') s')
      as [[[l' s''] t'']|] eqn:E'; [|discriminate].
    simplify_eq. rewrite spawn_requests_app, (IH _ _ _ E').
    apply try_call_inv in E as (_ & -> & _). done.
Qed.

(** Whatever the scan does, its spawn requests are those of the first
    candidates of the list, in the order of the list. *)
Lemma scan_spawn_requests_prefix tool arguments servers last_err s :
  spawn_requests (scan sdk tool arguments servers last_err s).2
    `prefix_of` session_params <$> servers.
Proof.
  revert last_err s. induction servers as [|srv rest IH]; intros last_err s.
  - by exists [].
  - destruct (_try_call sdk tool arguments srv s) as [[[r|e|] s1] t1] eqn:E1.
    + rewrite (scan_return _ _ _ _ _ _ _ _ _ E1). simpl.
      apply try_call_inv in E1 as (_ & -> & _).
      by exists (session_params <$> rest).
    + rewrite (scan_advance _ _ _ _ _ _ _ _ _ E1).
      specialize (IH (Some e) s1).
      destruct (scan sdk tool arguments rest (Some e) s1) as [[o2 s2] t2].
      simpl in *. rewrite spawn_requests_app.
      apply try_call_inv in E1 as (_ & -> & _).
      by apply (prefix_app [session_params srv]).
    + rewrite (scan_blocked _ _ _ _ _ _ _ _ E1). simpl.
      apply try_call_inv in E1 as (_ & -> & _).
      by exists (session_params <$> rest).
Qed.

(** Whatever the scan does, a scan that comes back has run its sessions
    one after the other and has torn each of them down. *)
Lemma scan_sessions tool arguments servers last_err s o s' tr :
  scan sdk tool arguments servers last_err s = (o, s', tr) ->
  o <> Hang ->
  sessions_trace (next_sid s) (next_sid s') tr.
Proof.
  revert last_err s tr.
  induction servers as [|srv rest IH]; intros last_err s tr E Ho.
  - unfold scan, raise in E. simplify_eq. constructor.
  - destruct (_try_call sdk tool arguments srv s) as [[[r|e|] s1] t1] eqn:E1.
    + rewrite (scan_return _ _ _ _ _ _ _ _ _ E1) in E. simplify_eq.
      apply try_call_inv in E1 as (-> & _ & Hs).
      eapply sessions_trace_one, Hs. done.
    + rewrite (scan_advance _ _ _ _ _ _ _ _ _ E1) in E.
      destruct (scan sdk tool arguments rest (Some e) s1) as [[o2 s2] t2] eqn:E2.
      simplify_eq.
      apply try_call_inv in E1 as (Hn & _ & Hs).
      eapply sessions_trace_app; [eapply sessions_trace_one, Hs; done|].
      rewrite <- Hn. eapply IH; eauto.
    + rewrite (scan_blocked _ _ _ _ _ _ _ _ E1) in E. by simplify_eq.
Qed.

End Scan.

(** ** The loop of list_tools *)

Section Gather.
Context {W : Type} (sdk : SDK W).

Lemma gather_skip srv rest n result :
  n <> "" -> name srv <> n ->
  _gather sdk (srv :: rest) (Some n) result = _gather sdk rest (Some n) result.
Proof.
  intros Hn Hne.
  assert (truthy (Some n) = true) as Ht by (by destruct n).
  cbn [_gather]. rewrite Ht, bool_decide_false by congruence. done.
Qed.

Lemma gather_query srv rest server_name result s :
  truthy server_name = false \/ server_name = Some (name srv) ->
  _gather sdk (srv :: rest) server_name result s =
  (let* names := _list_for_srv sdk srv in
   _gather sdk rest server_name (<[name srv := names]> result)) s.
Proof.
  intros [Hsn| ->]; cbn [_gather].
  - by rewrite Hsn.
  - rewrite bool_decide_true by done. by rewrite andb_false_r.
Qed.

(** The empty string is no [server_name]. *)
Lemma gather_empty_name servers result s :
  _gather sdk servers (Some "") result s = _gather sdk servers None result s.
Proof.
  revert result s. induction servers as [|srv rest IH]; intros result s; [done|].
  cbn [_gather truthy andb]. unfold bind.
  destruct (_list_for_srv sdk srv s) as [[[names|e|] s1] t1]; [|done..].
  by rewrite IH.
Qed.

Lemma gather_sessions servers server_name result s o s' tr :
  _gather sdk servers server_name result s = (o, s', tr) ->
  o <> Hang ->
  sessions_trace (next_sid s) (next_sid s') tr.
Proof.
  revert result s tr.
  induction servers as [|srv rest IH]; intros result s tr E Ho.
  - unfold _gather, ret in E. simplify_eq. constructor.
  - simpl in E.
    destruct (truthy server_name && negb (bool_decide (Some (name srv) = server_name)));
      [by eapply IH|].
    unfold bind in E.
    destruct (_list_for_srv sdk srv s) as [[[names|e|] s1] t1] eqn:E1.
    + destruct (_gather sdk rest server_name _ s1) as [[o2 s2] t2] eqn:E2.
      simplify_eq.
      apply list_for_srv_inv in E1 as (Hn & _ & _ & Hs & _).
      eapply sessions_trace_app; [eapply sessions_trace_one, Hs; done|].
      rewrite <- Hn. eapply IH; eauto.
    + apply list_for_srv_inv in E1 as (_ & _ & Hr & _). by destruct (Hr e).
    + by simplify_eq.
Qed.

End Gather.

(** ** The claims about call_tool *)

(** C1.  With no [server_name] ([None], or the empty string, which Python
    takes for none), the spawn requests of [call_tool] are those of the
    first servers of the registry, in registry order, whatever happens.  On
    the registry [pre ++ c :: post], where the attempts on the servers of
    [pre], made in that order from the initial state, all fail and the
    attempt on [c] that follows succeeds with [r], [call_tool] returns [r] at
    once: its trace is the trace of the failed attempts followed by the trace
    of the attempt on [c], its spawn requests are those of [pre] and then of
    [c], and nothing of [post] is contacted. *)
Theorem call_tool_first_success {W} (sdk : SDK W) pre c post tool arguments
    server_name s last s1 t1 r s2 t2 :
  truthy server_name = false ->
  all_fail sdk tool (default ∅ arguments) pre None s = Some (last, s1, t1) ->
  _try_call sdk tool (default ∅ arguments) c s1 = (Ok r, s2, t2) ->
  call_tool sdk (pre ++ c :: post) tool arguments server_name s
    = (Ok r, s2, t1 ++ t2) /\
  spawn_requests (t1 ++ t2) = session_params <$> (pre ++ [c]) /\
  (forall servers s0,
     spawn_requests (call_tool sdk servers tool arguments server_name s0).2
       `prefix_of` session_params <$> servers).
Proof.
  intros Hsn Hpre Hc. split; [|split].
  - unfold call_tool, _run_all. rewrite (candidates_unpinned _ _ Hsn).
    destruct (pre ++ c :: post) as [|x l] eqn:El; [by destruct pre|].
    rewrite <- El, (scan_app _ _ _ _ _ _ _ _ _ _ Hpre).
    by rewrite (scan_return _ _ _ _ _ _ _ _ _ _ Hc).
  - rewrite spawn_requests_app, (all_fail_spawn_requests _ _ _ _ _ _ _ _ _ Hpre).
    apply try_call_inv in Hc as (_ & -> & _).
    by rewrite fmap_app.
  - intros servers s0. unfold call_tool, _run_all.
    rewrite (candidates_unpinned _ _ Hsn).
    destruct servers as [|x l]; [by exists []|].
    apply scan_spawn_requests_prefix.
Qed.

Lemma call_tool_first_success_witness :
  (call_tool Demo.sdk [Demo.fs; Demo.web; Demo.broken] "read_file" None None
     Demo.s0).1.1 = Ok (RetContent ["read_file"]) /\
  spawn_requests
    (call_tool Demo.sdk [Demo.fs; Demo.web; Demo.broken] "read_file" None None
       Demo.s0).2 = session_params <$> [Demo.fs; Demo.web].
Proof.
  edestruct (call_tool_first_success Demo.sdk [Demo.fs] Demo.web [Demo.broken]
               "read_file" None None Demo.s0) as (H1 & H2 & _);
    [reflexivity | vm_compute; reflexivity | vm_compute; reflexivity |].
  simpl app in H1. rewrite H1. split; [reflexivity | exact H2].
Defined.

(** C2, as the code has it.  With a non-empty [server_name] that no
    configured server carries, [call_tool] raises the configuration error
    and its trace is empty: no process was spawned and no session opened,
    and the state is untouched.  With a non-empty [server_name] the
    candidates are the descriptors of that name, in registry order: that one
    descriptor when the name is configured once.  The empty string is no
    [server_name]: all servers are candidates. *)
Theorem call_tool_pinned {W} (sdk : SDK W) servers tool arguments n s :
  n <> "" ->
  (n ∉ name <$> servers ->
   call_tool sdk servers tool arguments (Some n) s
     = (Raise (RuntimeError "未找到匹配的 MCP 服务器配置"), s, [])) /\
  candidates servers (Some n) =
    List.filter (fun srv => bool_decide (name srv = n)) servers /\
  (forall pre srv post,
     servers = pre ++ srv :: post -> name srv = n ->
     n ∉ name <$> pre -> n ∉ name <$> post ->
     candidates servers (Some n) = [srv]) /\
  candidates servers (Some "") = servers.
Proof.
  intros Hn. split; [|split; [|split]].
  - intros Habs. unfold call_tool, _run_all.
    by rewrite (candidates_pinned _ _ Hn), (filter_name_absent _ _ Habs).
  - by apply candidates_pinned.
  - intros pre srv post -> Hsrv Hpre Hpost.
    rewrite (candidates_pinned _ _ Hn), List.filter_app. simpl.
    rewrite (filter_name_absent _ _ Hpre), (filter_name_absent _ _ Hpost).
    by rewrite bool_decide_true.
  - apply candidates_empty_name.
Qed.

Lemma call_tool_pinned_witness :
  call_tool Demo.sdk [Demo.fs; Demo.web] "read_file" None (Some "nope") Demo.s0
    = (Raise (RuntimeError "未找到匹配的 MCP 服务器配置"), Demo.s0, []) /\
  candidates [Demo.fs; Demo.web; Demo.broken] (Some "web") = [Demo.web].
Proof.
  split.
  - apply (call_tool_pinned Demo.sdk [Demo.fs; Demo.web] "read_file" None
             "nope" Demo.s0); [done | compute_done].
  - apply (call_tool_pinned Demo.sdk [Demo.fs; Demo.web; Demo.broken]
             "read_file" None "web" Demo.s0 ltac:(done))
      with (pre := [Demo.fs]) (post := [Demo.broken]);
      [done | done | compute_done | compute_done].
Defined.

(** C2, as the claim has it, fails.  The empty string is a [server_name]
    that no configured server carries, and [call_tool] with it does not
    raise the configuration error: it scans the registry and returns the
    result of [fs].  And in a registry where two descriptors are configured
    under the name [fs], both are candidates for the pinned name [fs]. *)
Lemma call_tool_empty_or_repeated_name :
  ("" ∉ name <$> [Demo.fs]) /\
  (call_tool Demo.sdk [Demo.fs] "list_dir" None (Some "") Demo.s0).1.1
    = Ok (RetContent ["list_dir"]) /\
  candidates [Demo.fs; Demo.fs_backup] (Some "fs") = [Demo.fs; Demo.fs_backup].
Proof. split; [compute_done|split; vm_compute; reflexivity]. Qed.

(** C7.  When the attempts on all candidates fail, one after the other,
    [call_tool] raises the error whose message carries the tool name and
    the text of the exception of the last attempt. *)
Theorem call_tool_all_fail {W} (sdk : SDK W) servers cs c tool arguments
    server_name s last s1 t1 e s2 t2 :
  candidates servers server_name = cs ++ [c] ->
  all_fail sdk tool (default ∅ arguments) cs None s = Some (last, s1, t1) ->
  _try_call sdk tool (default ∅ arguments) c s1 = (Raise e, s2, t2) ->
  call_tool sdk servers tool arguments server_name s
    = (Raise (RuntimeError ("工具调用失败：" +:+ tool +:+ "; 最后错误：" +:+ str e)),
       s2, t1 ++ t2).
Proof.
  intros Hcs Hfail Hc. unfold call_tool, _run_all. rewrite Hcs.
  destruct (cs ++ [c]) as [|x l] eqn:El; [by destruct cs|].
  rewrite <- El.
  pose proof (all_fail_snoc _ _ _ _ _ _ _ _ _ _ _ _ _ Hfail Hc) as Hall.
  rewrite <- (app_nil_r (cs ++ [c])), (scan_app _ _ _ _ _ _ _ _ _ _ Hall).
  simpl. unfold raise. by rewrite app_nil_r.
Qed.

Lemma call_tool_all_fail_witness :
  (call_tool Demo.sdk [Demo.fs; Demo.broken] "read_file" None None Demo.s0).1.1
    = Raise (RuntimeError "工具调用失败：read_file; 最后错误：no-such-binary").
Proof.
  erewrite (call_tool_all_fail Demo.sdk [Demo.fs; Demo.broken] [Demo.fs]
              Demo.broken "read_file" None None Demo.s0).
  2: reflexivity.
  2: vm_compute; reflexivity.
  2: vm_compute; reflexivity.
  reflexivity.
Defined.

(** ** The claims about the session runner *)

(** C4.  Whenever a run of the session runner comes back, by returning
    or by raising, the session it opened has been torn down, once: in the
    trace of the run no process is left running, no session is opened
    twice, and every session is torn down as often as it was opened.  The
    same holds of every [call_tool] and every [list_tools] that comes back,
    for all the sessions they ran.  (The operation handed to the runner
    talks over the session it is given and does nothing else.  The client
    has no timeout of its own: a step that times out reaches it as an
    exception of the SDK, and so on the raising path.) *)
Theorem every_session_torn_down_once {W} (sdk : SDK W) :
  (forall A srv (coro : Session -> M W A) s,
     exchange_only coro ->
     (_with_session sdk srv coro s).1.1 <> Hang ->
     torn_down_once (_with_session sdk srv coro s).2) /\
  (forall servers tool arguments server_name s,
     (call_tool sdk servers tool arguments server_name s).1.1 <> Hang ->
     torn_down_once (call_tool sdk servers tool arguments server_name s).2) /\
  (forall servers server_name s,
     (list_tools sdk servers server_name s).1.1 <> Hang ->
     torn_down_once (list_tools sdk servers server_name s).2).
Proof.
  split; [|split].
  - intros A srv coro s Hc Ho.
    eapply sessions_trace_torn_down_once, sessions_trace_one.
    by apply with_session_trace.
  - intros servers tool arguments server_name s.
    unfold call_tool, _run_all.
    destruct (candidates servers server_name) as [|c cs].
    + intros _. split; [done|]. intros sess. split; [|done].
      unfold opens. simpl. lia.
    + destruct (scan sdk tool (default ∅ arguments) (c :: cs) None s)
        as [[o s'] tr] eqn:E.
      intros Ho. eapply sessions_trace_torn_down_once, scan_sessions; eauto.
  - intros servers server_name s. unfold list_tools.
    destruct (_gather sdk servers server_name ∅ s) as [[o s'] tr] eqn:E.
    intros Ho. eapply sessions_trace_torn_down_once, gather_sessions; eauto.
Qed.

Lemma every_session_torn_down_once_witness :
  torn_down_once (_with_session Demo.sdk Demo.web (_list_run Demo.sdk) Demo.s0).2 /\
  torn_down_once
    (call_tool Demo.sdk [Demo.fs; Demo.broken; Demo.web] "read_file" None None
       Demo.s0).2 /\
  torn_down_once (list_tools Demo.sdk [Demo.broken; Demo.fs] None Demo.s0).2.
Proof.
  destruct (every_session_torn_down_once Demo.sdk) as (H1 & H2 & H3).
  split; [|split].
  - apply H1; [apply list_run_exchange_only | vm_compute; discriminate].
  - apply H2. vm_compute; discriminate.
  - apply H3. vm_compute; discriminate.
Defined.

(** ** One attempt, step by step *)

Ltac unfold_attempt :=
  unfold _try_call, _with_session, async_with, stdio_client, stdio_close,
    client_session, session_close, session_initialize, _run,
    session_list_tools, session_call_tool, try_except, request, bind, ret,
    raise.

Ltac sdk_step :=
  match goal with
  | |- context [stdio_enter ?k ?a ?b] => destruct (stdio_enter k a b) as [[[]| |] ?]
  | |- context [session_enter ?k ?a ?b] => destruct (session_enter k a b) as [[[]| |] ?]
  | |- context [sdk_initialize ?k ?a ?b] => destruct (sdk_initialize k a b) as [[[]| |] ?]
  | |- context [sdk_list_tools ?k ?a ?b] => destruct (sdk_list_tools k a b) as [[?| |] ?]
  | |- context [sdk_call_tool ?k ?a ?b ?c ?d] =>
      destruct (sdk_call_tool k a b c d) as [[?| |] ?]
  | |- context [session_exit ?k ?a ?b] => destruct (session_exit k a b) as [[[]| |] ?]
  | |- context [stdio_exit ?k ?a ?b] => destruct (stdio_exit k a b) as [[[]| |] ?]
  | |- context [bool_decide (?x ∈ ?l)] => destruct (decide (x ∈ l));
      [rewrite bool_decide_true by assumption|rewrite bool_decide_false by assumption]
  end; simpl.

Ltac run_attempt := unfold_attempt; simpl; repeat sdk_step.

(** C5.  In the session of a candidate, the exchanges of one attempt
    are: none (the session did not get as far), or the listing alone, or
    the listing followed by the invocation of the requested tool with the
    given arguments, and the last only when the listing advertised that
    tool.  When the listing came back without the tool, the operation
    raises [RuntimeError("tool_not_found")] after the listing alone, the
    attempt does not return a result, and when it raises the scan goes on
    with the next candidate. *)
Theorem tool_verified_before_invocation {W} (sdk : SDK W) tool arguments srv s
    o s1 t1 :
  _try_call sdk tool arguments srv s = (o, s1, t1) ->
  let sess := mkSession (next_sid s) (session_params srv) in
  (List.filter exchange t1 = [] \/
   (exists reply,
      List.filter exchange t1 = [EvListTools sess reply] /\
      forall r, o <> Ok r) \/
   (exists tools reply,
      tool ∈ tool_name <$> tools /\
      List.filter exchange t1 =
        [EvListTools sess (Ok tools); EvCallTool sess tool arguments reply])) /\
  (forall tools,
     EvListTools sess (Ok tools) ∈ t1 -> tool ∉ tool_name <$> tools ->
     List.filter is_call t1 = [] /\ (forall r, o <> Ok r)) /\
  (forall session s' tools w,
     sdk_list_tools sdk session (world s') = (Ok tools, w) ->
     tool ∉ tool_name <$> tools ->
     _run sdk tool arguments session s' =
       (Raise (RuntimeError "tool_not_found"), mkSt w (next_sid s'),
        [EvListTools session (Ok tools)])) /\
  (forall e rest last_err,
     o = Raise e ->
     scan sdk tool arguments (srv :: rest) last_err s =
     (let '(o2, s2, t2) := scan sdk tool arguments rest (Some e) s1 in
      (o2, s2, t1 ++ t2))).
Proof.
  intros E sess. split; [|split; [|split]].
  - revert E. subst sess. run_attempt; intros [= <- <- <-]; simpl;
      first [ by left | right; left; eexists; split; [reflexivity|done]
            | right; right; eexists _, _; split; [eassumption|reflexivity] ].
  - intros tools. revert E. subst sess. run_attempt; intros [= <- <- <-]; simpl;
      rewrite ?elem_of_cons, ?elem_of_nil; intros Hin Habs;
      repeat (destruct Hin as [Hin|Hin]); try done; simplify_eq; done.
  - intros session s' tools w Hl Habs.
    unfold _run, session_list_tools, try_except, request, bind, ret, raise.
    rewrite Hl. simpl. by rewrite bool_decide_false.
  - intros e rest last_err ->. by apply scan_advance.
Qed.

Lemma tool_verified_before_invocation_witness :
  List.filter is_call (_try_call Demo.sdk "read_file" ∅ Demo.fs Demo.s0).2 = [] /\
  forall r, (_try_call Demo.sdk "read_file" ∅ Demo.fs Demo.s0).1.1 <> Ok r.
Proof.
  destruct (_try_call Demo.sdk "read_file" ∅ Demo.fs Demo.s0) as [[o s1] t1] eqn:E.
  pose proof (tool_verified_before_invocation Demo.sdk "read_file" ∅ Demo.fs
                Demo.s0 o s1 t1 E) as (_ & H2 & _ & _).
  vm_compute in E. injection E as <- <- <-.
  apply (H2 (Demo.advertised "tool-fs")).
  - repeat first [apply list_elem_of_here | apply list_elem_of_further].
  - compute_done.
Defined.

(** C9, as the code has it.  The client puts no bound on the wait of a
    session step.  An attempt blocks exactly when one of its requests is
    never answered; that request is then the last thing the attempt did (so
    there is no teardown after it), and [call_tool] blocks with it: the scan
    does not go on.  An attempt in which a step fails by raising (a timeout
    raised by the SDK would be such a failure) has its session torn down, if
    it was opened, and the scan goes on with the next candidate. *)
Theorem unanswered_step_blocks {W} (sdk : SDK W) tool arguments srv rest
    last_err s o s1 t1 :
  _try_call sdk tool arguments srv s = (o, s1, t1) ->
  (o = Hang <-> existsb unanswered t1 = true) /\
  (o = Hang ->
   (exists ev, last t1 = Some ev /\ unanswered ev = true) /\
   scan sdk tool arguments (srv :: rest) last_err s = (Hang, s1, t1)) /\
  (forall e, o = Raise e ->
     session_trace (mkSession (next_sid s) (session_params srv)) t1 /\
     scan sdk tool arguments (srv :: rest) last_err s =
     (let '(o2, s2, t2) := scan sdk tool arguments rest (Some e) s1 in
      (o2, s2, t1 ++ t2))).
Proof.
  intros E. split; [|split].
  - revert E. run_attempt; intros [= <- <- <-]; simpl; split; done.
  - intros ->. split; [|by apply scan_blocked].
    revert E. run_attempt; intros [= <- <-]; by eexists.
  - intros e ->. split; [|by apply scan_advance].
    by apply try_call_inv in E as (_ & _ & Hs); apply Hs.
Qed.

Lemma unanswered_step_blocks_witness :
  scan Demo.sdk "read_file" ∅ [Demo.mute; Demo.web] None Demo.s0
    = _try_call Demo.sdk "read_file" ∅ Demo.mute Demo.s0 /\
  session_trace (mkSession 0 (session_params Demo.broken))
    (_try_call Demo.sdk "read_file" ∅ Demo.broken Demo.s0).2.
Proof.
  split.
  - destruct (_try_call Demo.sdk "read_file" ∅ Demo.mute Demo.s0)
      as [[o s1] t1] eqn:E.
    pose proof (unanswered_step_blocks Demo.sdk "read_file" ∅ Demo.mute
                  [Demo.web] None Demo.s0 o s1 t1 E) as (_ & H2 & _).
    vm_compute in E. injection E as <- <- <-. by apply H2.
  - destruct (_try_call Demo.sdk "read_file" ∅ Demo.broken Demo.s0)
      as [[o s1] t1] eqn:E.
    pose proof (unanswered_step_blocks Demo.sdk "read_file" ∅ Demo.broken
                  [] None Demo.s0 o s1 t1 E) as (_ & _ & H3).
    vm_compute in E. injection E as <- <- <-.
    by eapply H3.
Defined.

(** C9, as the claim has it, fails: the server [mute] never answers the
    handshake; [call_tool] on the registry [mute; web] blocks at that
    request, the session of [mute] is not torn down and [web], which has the
    tool, is never tried. *)
Lemma unanswered_handshake_blocks_call_tool :
  let sess := mkSession 0 (session_params Demo.mute) in
  call_tool Demo.sdk [Demo.mute; Demo.web] "read_file" None None Demo.s0
    = (Hang, mkSt 3 1,
       [EvSpawn sess (Ok tt); EvSessionEnter sess (Ok tt); EvInitialize sess Hang]).
Proof. vm_compute. reflexivity. Qed.

(** ** The claims about list_tools *)

Section GatherFacts.
Context {W : Type} (sdk : SDK W).

(** The query of one server blocks exactly when one of its requests is
    never answered. *)
Lemma list_for_srv_blocked srv s :
  (_list_for_srv sdk srv s).1.1 = Hang <->
  existsb unanswered (_list_for_srv sdk srv s).2 = true.
Proof.
  unfold _list_for_srv, _list_run. unfold_attempt. simpl.
  repeat sdk_step; simpl; split; done.
Qed.

Lemma gather_never_raises servers server_name result s e :
  (_gather sdk servers server_name result s).1.1 <> Raise e.
Proof.
  revert result s. induction servers as [|srv rest IH]; intros result s; [done|].
  simpl.
  destruct (truthy server_name && negb (bool_decide (Some (name srv) = server_name)));
    [apply IH|].
  unfold bind.
  destruct (_list_for_srv sdk srv s) as [[[names|e'|] s1] t1] eqn:E1.
  - specialize (IH (<[name srv := names]> result) s1).
    by destruct (_gather sdk rest server_name _ s1) as [[o2 s2] t2].
  - apply list_for_srv_inv in E1 as (_ & _ & Hr & _). by destruct (Hr e').
  - done.
Qed.

Lemma gather_blocked servers server_name result s :
  (_gather sdk servers server_name result s).1.1 = Hang <->
  existsb unanswered (_gather sdk servers server_name result s).2 = true.
Proof.
  revert result s. induction servers as [|srv rest IH]; intros result s; [done|].
  simpl.
  destruct (truthy server_name && negb (bool_decide (Some (name srv) = server_name)));
    [apply IH|].
  unfold bind.
  pose proof (list_for_srv_blocked srv s) as Hb.
  destruct (_list_for_srv sdk srv s) as [[[names|e'|] s1] t1] eqn:E1; simpl in *.
  - specialize (IH (<[name srv := names]> result) s1).
    destruct (_gather sdk rest server_name _ s1) as [[o2 s2] t2]. simpl in *.
    rewrite existsb_app.
    destruct (existsb unanswered t1);
      [by destruct Hb as [_ Hb]; specialize (Hb eq_refl)|exact IH].
  - apply list_for_srv_inv in E1 as (_ & _ & Hr & _). by destruct (Hr e').
  - destruct Hb as [Hb _]. by rewrite Hb.
Qed.

Lemma gather_dom servers server_name result s m s' tr :
  truthy server_name = false ->
  _gather sdk servers server_name result s = (Ok m, s', tr) ->
  dom m = dom result ∪ list_to_set (name <$> servers).
Proof.
  intros Hsn. revert result s tr.
  induction servers as [|srv rest IH]; intros result s tr E.
  - unfold _gather, ret in E. simplify_eq. simpl. by rewrite (right_id_L ∅ (∪)).
  - rewrite gather_query in E by auto. unfold bind in E.
    destruct (_list_for_srv sdk srv s) as [[[names|e'|] s1] t1]; try done.
    destruct (_gather sdk rest server_name _ s1) as [[o2 s2] t2] eqn:E2.
    simplify_eq. rewrite (IH _ _ _ E2), dom_insert_L. simpl.
    by rewrite (comm_L (∪) {[name srv]} (dom result)), <- (assoc_L (∪)).
Qed.

(** Servers of other names leave an entry as it is. *)
Lemma gather_lookup_other servers server_name result s m s' tr k :
  k ∉ name <$> servers ->
  _gather sdk servers server_name result s = (Ok m, s', tr) ->
  m !! k = result !! k.
Proof.
  revert result s tr.
  induction servers as [|srv rest IH]; intros result s tr Hk E.
  - unfold _gather, ret in E. by simplify_eq.
  - simpl in Hk. apply not_elem_of_cons in Hk as [Hne Hk]. simpl in E.
    destruct (truthy server_name && negb (bool_decide (Some (name srv) = server_name)));
      [by eapply IH|].
    unfold bind in E.
    destruct (_list_for_srv sdk srv s) as [[[names|e'|] s1] t1]; try done.
    destruct (_gather sdk rest server_name _ s1) as [[o2 s2] t2] eqn:E2.
    simplify_eq. rewrite (IH _ _ _ Hk E2). by rewrite lookup_insert_ne.
Qed.

Lemma gather_app pre post server_name result s :
  _gather sdk (pre ++ post) server_name result s =
  (let* m := _gather sdk pre server_name result in
   _gather sdk post server_name m) s.
Proof.
  revert result s. induction pre as [|srv rest IH]; intros result s.
  - simpl. unfold bind, ret. simpl.
    by destruct (_gather sdk post server_name result s) as [[o2 s2] t2].
  - simpl.
    destruct (truthy server_name && negb (bool_decide (Some (name srv) = server_name)));
      [apply IH|].
    unfold bind.
    destruct (_list_for_srv sdk srv s) as [[[names|e'|] s1] t1]; try done.
    rewrite IH. unfold bind.
    destruct (_gather sdk rest server_name _ s1) as [[[m| |] s2] t2]; try done.
    destruct (_gather sdk post server_name m s2) as [[o3 s3] t3].
    by rewrite app_assoc.
Qed.

End GatherFacts.

(** C3, as the code has it.  With no [server_name], [list_tools] never
    raises, whatever the registry; unless one of its requests is left
    unanswered it returns a mapping.  The keys of the mapping are exactly
    the names of the configured servers, one entry per server when the names
    are distinct (so the empty mapping for the empty registry).  The entry
    of a name is what the query of the last server configured under it gave:
    a server whose query fails maps to the empty list when no later server
    carries its name. *)
Theorem list_tools_entries {W} (sdk : SDK W) servers server_name s o s' tr :
  truthy server_name = false ->
  list_tools sdk servers server_name s = (o, s', tr) ->
  (forall e, o <> Raise e) /\
  (existsb unanswered tr = false -> exists m, o = Ok m) /\
  (forall m, o = Ok m ->
     dom m = list_to_set (name <$> servers) /\
     (NoDup (name <$> servers) -> size m = length servers) /\
     (forall pre srv post m1 s1 t1 e,
        servers = pre ++ srv :: post ->
        name srv ∉ name <$> post ->
        _gather sdk pre server_name ∅ s = (Ok m1, s1, t1) ->
        (_with_session sdk srv (_list_run sdk) s1).1.1 = Raise e ->
        m !! name srv = Some []) /\
     (forall pre srv post m1 s1 t1 names s2 t2,
        servers = pre ++ srv :: post ->
        name srv ∉ name <$> post ->
        _gather sdk pre server_name ∅ s = (Ok m1, s1, t1) ->
        _list_for_srv sdk srv s1 = (Ok names, s2, t2) ->
        m !! name srv = Some names)).
Proof.
  intros Hsn E. unfold list_tools in E.
  pose proof (gather_never_raises sdk servers server_name ∅ s) as Hnr.
  pose proof (gather_blocked sdk servers server_name ∅ s) as Hb.
  rewrite E in Hnr, Hb. simpl in *.
  split; [|split].
  - intros e. apply Hnr.
  - intros Hu. destruct o as [m|e|]; [by exists m|by destruct (Hnr e)|].
    destruct Hb as [Hb _]. rewrite Hb in Hu; done.
  - intros m ->.
    assert (dom m = list_to_set (name <$> servers)) as Hdom.
    { rewrite (gather_dom _ _ _ _ _ _ _ _ Hsn E), dom_empty_L.
      by rewrite (left_id_L ∅ (∪)). }
    split; [exact Hdom|split; [|split]].
    + intros Hnd. rewrite <- size_dom, Hdom, size_list_to_set by done.
      by rewrite length_fmap.
    + intros pre srv post m1 s1 t1 e -> Hpost Hpre Hfail.
      rewrite gather_app in E. unfold bind in E. rewrite Hpre in E.
      rewrite gather_query in E by auto. unfold bind in E.
      destruct (_list_for_srv sdk srv s1) as [[[names|e'|] s2] t2] eqn:E2;
        [|by destruct (_gather sdk post server_name m1 s2) as [[? ?] ?]..].
      apply list_for_srv_inv in E2 as (_ & _ & _ & _ & Hempty).
      specialize (Hempty e Hfail). simplify_eq.
      destruct (_gather sdk post server_name (<[name srv := []]> m1) s2)
        as [[o3 s3] t3] eqn:E3.
      simplify_eq.
      rewrite (gather_lookup_other _ _ _ _ _ _ _ _ _ Hpost E3).
      apply lookup_insert_eq.
    + intros pre srv post m1 s1 t1 names s2 t2 -> Hpost Hpre Hq.
      rewrite gather_app in E. unfold bind in E. rewrite Hpre in E.
      rewrite gather_query in E by auto. unfold bind in E. rewrite Hq in E.
      destruct (_gather sdk post server_name (<[name srv := names]> m1) s2)
        as [[o3 s3] t3] eqn:E3.
      simplify_eq.
      rewrite (gather_lookup_other _ _ _ _ _ _ _ _ _ Hpost E3).
      apply lookup_insert_eq.
Qed.

Lemma list_tools_entries_witness :
  exists m,
    (list_tools Demo.sdk [Demo.broken; Demo.fs] None Demo.s0).1.1 = Ok m /\
    size m = 2 /\ m !! "broken" = Some [].
Proof.
  destruct (list_tools Demo.sdk [Demo.broken; Demo.fs] None Demo.s0)
    as [[o s'] tr] eqn:E.
  pose proof (list_tools_entries Demo.sdk [Demo.broken; Demo.fs] None Demo.s0
                o s' tr eq_refl E) as (_ & H2 & H3).
  destruct H2 as [m ->]; [vm_compute in E; by injection E as _ _ <-|].
  exists m. split; [done|].
  destruct (H3 m eq_refl) as (_ & Hsize & Hfail & _).
  split; [apply Hsize; compute_done|].
  apply (Hfail [] Demo.broken [Demo.fs] ∅ Demo.s0 []
           (PeerError "FileNotFoundError" "no-such-binary"));
    [done | compute_done | done | by vm_compute].
Defined.

(** C3, as the claim has it, fails.  With no servers configured at all
    the aggregate call does not fail: it returns the empty mapping, and no
    request is made.  And in a registry where two servers are configured
    under the name [fs] the mapping has one entry for the two, that of the
    later one: when the query of the first of them fails, the name does not
    map to the empty list but to the tools of the second. *)
Lemma list_tools_no_servers_returns :
  list_tools Demo.sdk [] None Demo.s0 = (Ok ∅, Demo.s0, []) /\
  (list_tools Demo.sdk [Demo.fs; Demo.fs_backup] None Demo.s0).1.1
    = Ok {["fs" := ["fetch"; "read_file"]]} /\
  (_with_session Demo.sdk (mkServer "fs" "no-such-binary" [] ∅)
     (_list_run Demo.sdk) Demo.s0).1.1
    = Raise (PeerError "FileNotFoundError" "no-such-binary") /\
  (list_tools Demo.sdk [mkServer "fs" "no-such-binary" [] ∅; Demo.fs] None
     Demo.s0).1.1
    = Ok {["fs" := ["list_dir"]]}.
Proof. repeat split; vm_compute; reflexivity. Qed.

(** C10, as the code has it.  With a non-empty [server_name] that no
    configured server carries, [list_tools] returns the empty mapping,
    without raising and without a single request, where [call_tool] raises.
    The empty string is no [server_name]: [list_tools] with it queries every
    server. *)
Theorem list_tools_unconfigured {W} (sdk : SDK W) servers tool arguments n s :
  n <> "" ->
  n ∉ name <$> servers ->
  list_tools sdk servers (Some n) s = (Ok ∅, s, []) /\
  call_tool sdk servers tool arguments (Some n) s
    = (Raise (RuntimeError "未找到匹配的 MCP 服务器配置"), s, []) /\
  list_tools sdk servers (Some "") s = list_tools sdk servers None s.
Proof.
  intros Hn Habs. split; [|split].
  - unfold list_tools. generalize (∅ : gmap string (list string)) as result.
    induction servers as [|srv rest IH]; intros result; [done|].
    simpl in Habs. apply not_elem_of_cons in Habs as [Hne Habs].
    rewrite gather_skip by congruence. by apply IH.
  - unfold call_tool, _run_all.
    by rewrite (candidates_pinned _ _ Hn), (filter_name_absent _ _ Habs).
  - apply gather_empty_name.
Qed.

Lemma list_tools_unconfigured_witness :
  list_tools Demo.sdk [Demo.fs; Demo.web] (Some "nope") Demo.s0
    = (Ok ∅, Demo.s0, []).
Proof.
  apply (list_tools_unconfigured Demo.sdk [Demo.fs; Demo.web] "read_file" None
           "nope" Demo.s0); [done | compute_done].
Defined.

(** C10, as the claim has it, fails: the empty string is a [server_name]
    that no configured server carries, and [list_tools] with it returns the
    entry of [fs], not the empty mapping. *)
Lemma list_tools_empty_name_queries_all :
  ("" ∉ name <$> [Demo.fs]) /\
  (list_tools Demo.sdk [Demo.fs] (Some "") Demo.s0).1.1
    = Ok {["fs" := ["list_dir"]]}.
Proof. split; [compute_done|vm_compute; reflexivity]. Qed.

(** ** The process supervisor *)

Section SupervisorFacts.
Context {W : Type} (os : OS W).

(** A server tracked with a process that is still running is passed
    over. *)
Lemma start_all_skip srv rest procs w proc w1 :
  procs !! name srv = Some proc ->
  poll os proc w = (None, w1) ->
  start_all os (srv :: rest) procs w = start_all os rest procs w1.
Proof. intros Hp Hpoll. simpl. unfold is_running. by rewrite Hp, Hpoll. Qed.

(** A launch that fails leaves the table and the result as they are, and
    the loop goes on. *)
Lemma start_all_failure srv rest procs w w1 w2 :
  is_running os procs srv w = (false, w1) ->
  popen os (command srv :: args srv) (launch_env os srv w1) w1 = (None, w2) ->
  start_all os (srv :: rest) procs w =
  let r := start_all os rest procs w2 in
  mkStarted (started r) (processes r) (os_world r)
    (mkPopen srv (command srv :: args srv) (launch_env os srv w1) None :: spawned r).
Proof. intros Hr Hp. simpl. by rewrite Hr, Hp. Qed.

(** The returned list is the list of the launches that gave a process. *)
Lemma start_all_started servers procs w :
  started (start_all os servers procs w) =
  (fun ev => name (pe_server ev)) <$>
    List.filter launched (spawned (start_all os servers procs w)).
Proof.
  revert procs w. induction servers as [|srv rest IH]; intros procs w; [done|].
  simpl. destruct (is_running os procs srv w) as [[] w1]; [apply IH|].
  destruct (popen os _ _ w1) as [[proc|] w2]; simpl; by rewrite IH.
Qed.

(** Nothing is launched under a name whose tracked process keeps
    running.  [stable] is what is known of the worlds the loop goes through:
    it holds at the start and no [Popen] and no [poll] breaks it. *)
Lemma start_all_no_respawn (stable : W -> Prop) (alive : gmap string nat)
    servers procs w :
  (forall cmd e w0, stable w0 -> stable (popen os cmd e w0).2) ->
  (forall proc w0, stable w0 -> stable (poll os proc w0).2) ->
  (forall n proc w0,
     stable w0 -> alive !! n = Some proc -> (poll os proc w0).1 = None) ->
  alive ⊆ procs ->
  stable w ->
  Forall (fun ev => alive !! name (pe_server ev) = None)
    (spawned (start_all os servers procs w)).
Proof.
  intros Hpopen Hpoll Halive. revert procs w.
  induction servers as [|srv rest IH]; intros procs w Hsub Hw; [constructor|].
  assert (forall w1, stable w1 -> alive !! name srv = None ->
      Forall (fun ev => alive !! name (pe_server ev) = None)
        (spawned
           (match popen os (command srv :: args srv) (launch_env os srv w1) w1 with
            | (Some proc, w2) =>
                let r := start_all os rest (<[name srv := proc]> procs) w2 in
                mkStarted (name srv :: started r) (processes r) (os_world r)
                  (mkPopen srv (command srv :: args srv) (launch_env os srv w1)
                     (Some proc) :: spawned r)
            | (None, w2) =>
                let r := start_all os rest procs w2 in
                mkStarted (started r) (processes r) (os_world r)
                  (mkPopen srv (command srv :: args srv) (launch_env os srv w1)
                     None :: spawned r)
            end))) as Hlaunch.
  { intros w1 Hw1 Ha.
    pose proof (Hpopen (command srv :: args srv) (launch_env os srv w1) w1 Hw1) as Hw2.
    destruct (popen os _ _ w1) as [[proc|] w2]; simpl in *; constructor; auto.
    apply IH; [by apply insert_subseteq_r|done]. }
  simpl. unfold is_running.
  destruct (alive !! name srv) as [proc|] eqn:Ha.
  - rewrite (lookup_weaken _ _ _ _ Ha Hsub).
    pose proof (Halive _ _ w Hw Ha) as Hp.
    pose proof (Hpoll proc w Hw) as Hw1.
    destruct (poll os proc w) as [[rc|] w1]; [done|]. by apply IH.
  - destruct (procs !! name srv) as [proc|]; [|by apply Hlaunch].
    pose proof (Hpoll proc w Hw) as Hw1.
    destruct (poll os proc w) as [[rc|] w1]; [by apply Hlaunch|].
    by apply IH.
Qed.

(** The table only grows, and every name returned is tracked at the
    end. *)
Lemma start_all_tracked servers procs w :
  dom procs ⊆ dom (processes (start_all os servers procs w)) /\
  Forall (fun n => is_Some (processes (start_all os servers procs w) !! n))
    (started (start_all os servers procs w)).
Proof.
  revert procs w. induction servers as [|srv rest IH]; intros procs w.
  - simpl. split; [done|constructor].
  - simpl. destruct (is_running os procs srv w) as [[] w1]; [apply IH|].
    destruct (popen os _ _ w1) as [[proc|] w2]; simpl; [|apply IH].
    destruct (IH (<[name srv := proc]> procs) w2) as [Hd Hs].
    rewrite dom_insert_L in Hd. split.
    + intros n Hn. apply Hd, elem_of_union. by right.
    + constructor; [|exact Hs].
      apply elem_of_dom, Hd, elem_of_union. left. by apply elem_of_singleton.
Qed.

(** Every launch is made with the command line of its descriptor and with
    the environment of the process at that moment, overridden by the
    descriptor's. *)
Lemma start_all_launch_env servers procs w :
  Forall (fun ev =>
            pe_cmd ev = command (pe_server ev) :: args (pe_server ev) /\
            exists w', pe_env ev = env (pe_server ev) ∪ environ os w')
    (spawned (start_all os servers procs w)).
Proof.
  revert procs w. induction servers as [|srv rest IH]; intros procs w; [constructor|].
  simpl. destruct (is_running os procs srv w) as [[] w1]; [apply IH|].
  destruct (popen os _ _ w1) as [[proc|] w2]; simpl; constructor; simpl; eauto.
Qed.

End SupervisorFacts.

(** C8.  [start_all] passes over a server that is tracked with a process
    still running.  So, when it is called a second time right after a first
    call, and the processes tracked after the first call keep running ([stable]
    says what is known of the worlds gone through), the second call launches
    nothing under a tracked name and returns none of the names the first call
    returned, nor any other tracked name.  A launch that fails does not stop
    the loop: the remaining servers are handled as they would be without it,
    and the returned list is exactly the list of the launches that gave a
    process, so the failed one is not in it. *)
Theorem start_all_skips_live {W} (os : OS W) :
  (forall srv rest procs w proc w1,
     procs !! name srv = Some proc ->
     poll os proc w = (None, w1) ->
     start_all os (srv :: rest) procs w = start_all os rest procs w1) /\
  (forall (stable : W -> Prop) servers procs w,
     let r1 := start_all os servers procs w in
     let r2 := start_all os servers (processes r1) (os_world r1) in
     (forall cmd e w0, stable w0 -> stable (popen os cmd e w0).2) ->
     (forall proc w0, stable w0 -> stable (poll os proc w0).2) ->
     (forall n proc w0,
        stable w0 -> processes r1 !! n = Some proc ->
        (poll os proc w0).1 = None) ->
     stable (os_world r1) ->
     Forall (fun ev => processes r1 !! name (pe_server ev) = None) (spawned r2) /\
     Forall (fun n => (n ∉ started r1) /\ processes r1 !! n = None) (started r2)) /\
  (forall srv rest procs w w1 w2,
     is_running os procs srv w = (false, w1) ->
     popen os (command srv :: args srv) (launch_env os srv w1) w1 = (None, w2) ->
     start_all os (srv :: rest) procs w =
     let r := start_all os rest procs w2 in
     mkStarted (started r) (processes r) (os_world r)
       (mkPopen srv (command srv :: args srv) (launch_env os srv w1) None
          :: spawned r)) /\
  (forall servers procs w,
     started (start_all os servers procs w) =
     (fun ev => name (pe_server ev)) <$>
       List.filter launched (spawned (start_all os servers procs w))).
Proof.
  split; [|split; [|split]].
  - apply start_all_skip.
  - intros stable servers procs w r1 r2 Hpopen Hpoll Halive Hw.
    assert (Forall (fun ev => processes r1 !! name (pe_server ev) = None)
              (spawned r2)) as Hsp.
    { by apply (start_all_no_respawn os stable (processes r1)). }
    split; [exact Hsp|].
    subst r2. rewrite start_all_started.
    destruct (start_all_tracked os servers procs w) as [_ Htr].
    fold r1 in Htr. rewrite Forall_forall in Htr.
    induction Hsp as [|ev evs Hev _ IH]; [constructor|].
    simpl. destruct (launched ev); [|exact IH].
    simpl. constructor; [|exact IH]. split; [|exact Hev].
    intros Hin. apply Htr in Hin.
    rewrite Hev in Hin. by destruct Hin.
  - apply start_all_failure.
  - apply start_all_started.
Qed.

Lemma start_all_skips_live_witness :
  let r1 := start_all Demo.os [Demo.fs; Demo.broken; Demo.web] ∅ (0, []) in
  let r2 :=
    start_all Demo.os [Demo.fs; Demo.broken; Demo.web] (processes r1) (os_world r1) in
  started r1 = ["fs"; "web"] /\
  Forall (fun ev => processes r1 !! name (pe_server ev) = None) (spawned r2) /\
  Forall (fun n => (n ∉ started r1) /\ processes r1 !! n = None) (started r2).
Proof.
  intros r1 r2. split; [reflexivity|].
  destruct (start_all_skips_live Demo.os) as (_ & Htwice & _ & _).
  apply (Htwice (fun w => w.2 = []) [Demo.fs; Demo.broken; Demo.web] ∅ (0, [])).
  - intros cmd e [n l] Hl. simpl in *. by destruct (decide _).
  - intros proc [n l] Hl. done.
  - intros n proc [k l] Hl _. simpl in *. subst l.
    destruct (decide (proc ∈ [])) as [Hin|]; [|done].
    by apply elem_of_nil in Hin.
  - reflexivity.
Defined.

(** C6, as the code has it.  [start_all] launches every server with the
    command line of its descriptor and with the environment of the running
    process overridden, key by key, by the [env] of the descriptor.  A
    per-call session does not merge anything: the one spawn request of an
    attempt of [call_tool] and of a query of [list_tools] carries the
    command, the arguments and, as environment, the [env] of the descriptor
    alone, or [None] when that is empty. *)
Theorem launch_environment {W W'} (os : OS W) (sdk : SDK W') :
  (forall servers procs w,
     Forall (fun ev =>
               pe_cmd ev = command (pe_server ev) :: args (pe_server ev) /\
               exists w',
                 pe_env ev = env (pe_server ev) ∪ environ os w' /\
                 forall k,
                   pe_env ev !! k =
                   match env (pe_server ev) !! k with
                   | Some v => Some v
                   | None => environ os w' !! k
                   end)
       (spawned (start_all os servers procs w))) /\
  (forall tool arguments srv s,
     spawn_requests (_try_call sdk tool arguments srv s).2 =
     [mkParams (command srv) (args srv)
        (if decide (env srv = ∅) then None else Some (env srv))]) /\
  (forall srv s,
     spawn_requests (_list_for_srv sdk srv s).2 =
     [mkParams (command srv) (args srv)
        (if decide (env srv = ∅) then None else Some (env srv))]).
Proof.
  split; [|split].
  - intros servers procs w.
    eapply Forall_impl; [apply start_all_launch_env|].
    intros ev (Hcmd & w' & Henv). split; [exact Hcmd|].
    exists w'. split; [exact Henv|].
    intros k. rewrite Henv, lookup_union.
    by destruct (env (pe_server ev) !! k), (environ os w' !! k).
  - intros tool arguments srv s.
    destruct (_try_call sdk tool arguments srv s) as [[o s1] t1] eqn:E.
    apply try_call_inv in E as (_ & Hsp & _). simpl. by rewrite Hsp.
  - intros srv s.
    destruct (_list_for_srv sdk srv s) as [[o s1] t1] eqn:E.
    apply list_for_srv_inv in E as (_ & Hsp & _). simpl. by rewrite Hsp.
Qed.

(** C6, as the claim has it, fails for a per-call session: the process
    environment has [PATH], the descriptor [web] overrides [API_KEY] only;
    the merged environment that [start_all] launches [web] with has [PATH],
    the environment that the session of [web] is spawned with has not. *)
Lemma session_environment_not_merged :
  spawn_requests (_try_call Demo.sdk "read_file" ∅ Demo.web Demo.s0).2 =
    [mkParams "tool-web" ["--port"; "0"] (Some {["API_KEY" := "k"]})] /\
  ({["API_KEY" := "k"]} : gmap string string) !! "PATH" = None /\
  pe_env <$> spawned (start_all Demo.os [Demo.web] ∅ (0, [])) =
    [{["API_KEY" := "k"; "PATH" := "/usr/bin"]}].
Proof. split; [|split]; vm_compute; reflexivity. Qed.


(** ** The process table: start, status, stop *)

Section PyDictFacts.
Context {V : Type}.
Implicit Types d : list (string * V).

Lemma pd_get_list_to_map d k :
  pd_get d k = (list_to_map d : gmap string V) !! k.
Proof.
  induction d as [|[k' v] d IH]; [done|]. simpl.
  destruct (decide (k' = k)) as [->|Hne].
  - by rewrite lookup_insert_eq.
  - by rewrite lookup_insert_ne.
Qed.

Lemma pd_set_list_to_map d k v :
  (list_to_map (pd_set d k v) : gmap string V) = <[k := v]> (list_to_map d).
Proof.
  induction d as [|[k' v'] d IH]; [done|]. simpl.
  destruct (decide (k' = k)) as [->|Hne]; simpl.
  - by rewrite insert_insert_eq.
  - by rewrite IH, insert_insert_ne.
Qed.

Lemma pd_get_None d k : pd_get d k = None <-> k ∉ d.*1.
Proof.
  induction d as [|[k' v] d IH]; simpl.
  - split; [intros _; apply not_elem_of_nil|done].
  - rewrite not_elem_of_cons. destruct (decide (k' = k)) as [->|Hne].
    + split; [done|]. by intros [? _].
    + rewrite IH. split; [by split|by intros [_ ?]].
Qed.

Lemma pd_get_Some d k v : NoDup d.*1 -> pd_get d k = Some v <-> (k, v) ∈ d.
Proof.
  induction d as [|[k' v'] d IH]; simpl; intros Hnd.
  - split; [done|]. by intros ?%elem_of_nil.
  - apply NoDup_cons in Hnd as [Hk Hnd]. rewrite elem_of_cons.
    destruct (decide (k' = k)) as [->|Hne].
    + split; [intros [= ->]; by left|].
      intros [[= ->]|Hin]; [done|].
      destruct Hk. apply list_elem_of_fmap. by exists (k, v).
    + rewrite (IH Hnd). split; [by right|]. by intros [[= -> ->]|?].
Qed.

(** Setting a key that is not there appends it. *)
Lemma pd_set_fresh d k v : k ∉ d.*1 -> pd_set d k v = d ++ [(k, v)].
Proof.
  induction d as [|[k' v'] d IH]; [done|]. simpl.
  rewrite not_elem_of_cons. intros [Hne Hk].
  rewrite decide_False by done. by rewrite IH.
Qed.

(** Setting a key leaves the keys and their order as they are, or adds
    the key at the end. *)
Lemma pd_set_keys d k v :
  (pd_set d k v).*1 = if decide (k ∈ d.*1) then d.*1 else d.*1 ++ [k].
Proof.
  induction d as [|[k' v'] d IH].
  - cbn [pd_set fmap list_fmap fst].
    destruct (decide (k ∈ [])) as [Hin|]; [by apply elem_of_nil in Hin|done].
  - cbn [pd_set]. destruct (decide (k' = k)) as [->|Hne].
    + rewrite !fmap_cons. cbn [fst]. rewrite decide_True; [done|by left].
    + rewrite !fmap_cons, IH. cbn [fst].
      destruct (decide (k ∈ d.*1)) as [Hin|Hout].
      * rewrite decide_True; [done|by right].
      * rewrite decide_False; [done|]. rewrite not_elem_of_cons. by split.
Qed.

Lemma pd_set_NoDup d k v : NoDup d.*1 -> NoDup (pd_set d k v).*1.
Proof.
  intros Hnd. rewrite pd_set_keys. destruct (decide (k ∈ d.*1)); [done|].
  apply NoDup_app. split; [done|]. split; [|apply NoDup_singleton].
  intros x Hx ->%list_elem_of_singleton. done.
Qed.

Lemma pd_get_set d k v k' :
  pd_get (pd_set d k v) k' = if decide (k = k') then Some v else pd_get d k'.
Proof.
  rewrite !pd_get_list_to_map, pd_set_list_to_map.
  destruct (decide (k = k')) as [->|Hne].
  - by rewrite lookup_insert_eq.
  - by rewrite lookup_insert_ne.
Qed.

Lemma pd_get_setdefault d k v k' :
  pd_get (pd_setdefault d k v) k' =
  match pd_get d k' with
  | Some x => Some x
  | None => if decide (k = k') then Some v else None
  end.
Proof.
  unfold pd_setdefault. destruct (pd_get d k) as [x|] eqn:Hk.
  - destruct (pd_get d k') as [x'|] eqn:Hk'; [done|].
    destruct (decide (k = k')) as [->|]; [congruence|done].
  - rewrite !pd_get_list_to_map, list_to_map_app, lookup_union.
    rewrite <- !pd_get_list_to_map. simpl.
    destruct (pd_get d k') as [x'|] eqn:Hk'; simpl.
    + by destruct (decide (k = k')).
    + by destruct (decide (k = k')).
Qed.

Lemma pd_setdefault_prefix d k v : d `prefix_of` pd_setdefault d k v.
Proof.
  unfold pd_setdefault. destruct (pd_get d k); [done|]. by exists [(k, v)].
Qed.

Lemma pd_pop_pop d k k' : pd_pop (pd_pop d k) k' = pd_pop (pd_pop d k') k.
Proof.
  unfold pd_pop. induction d as [|[k0 v0] d IH]; [done|]. simpl.
  destruct (bool_decide (k0 = k)) eqn:E1, (bool_decide (k0 = k')) eqn:E2;
    simpl; rewrite ?E1, ?E2; simpl; by rewrite ?IH.
Qed.

End PyDictFacts.

Section TableFacts.
Context {W : Type} (os : OS W) (terminate : nat -> W -> bool * W).

Lemma is_running_dict_map d srv w :
  is_running_dict os d srv w = is_running os (list_to_map d) srv w.
Proof. unfold is_running_dict, is_running. by rewrite pd_get_list_to_map. Qed.

Lemma start_all_dict_NoDup servers d w :
  NoDup d.*1 -> NoDup (ds_processes (start_all_dict os servers d w)).*1.
Proof.
  revert d w. induction servers as [|srv rest IH]; intros d w Hnd; [done|].
  simpl. destruct (is_running_dict os d srv w) as [[] w1]; [by apply IH|].
  destruct (popen os _ _ w1) as [[proc|] w2]; simpl; [|by apply IH].
  by apply IH, pd_set_NoDup.
Qed.

(** From a table that tracks none of the servers, whose names are
    distinct, every server is launched once, in order, and the launches that
    gave a process are appended to the table. *)
Lemma start_all_dict_untracked servers d w :
  NoDup (name <$> servers) ->
  Forall (fun srv => name srv ∉ d.*1) servers ->
  pe_server <$> ds_spawned (start_all_dict os servers d w) = servers /\
  ds_processes (start_all_dict os servers d w) =
    d ++ launched_entries (ds_spawned (start_all_dict os servers d w)).
Proof.
  revert d w. induction servers as [|srv rest IH]; intros d w Hnd Hun.
  - simpl. by rewrite app_nil_r.
  - rewrite fmap_cons in Hnd. apply NoDup_cons in Hnd as [Hsrv Hnd].
    apply Forall_cons in Hun as [Hd Hun].
    simpl. unfold is_running_dict.
    rewrite (proj2 (pd_get_None d (name srv)) Hd).
    destruct (popen os _ _ w) as [[proc|] w2]; simpl.
    + destruct (IH (pd_set d (name srv) proc) w2 Hnd) as [IH1 IH2].
      { rewrite pd_set_fresh by done. apply Forall_forall. intros x Hx.
        rewrite Forall_forall in Hun. specialize (Hun x Hx).
        rewrite fmap_app, not_elem_of_app. split; [done|]. simpl.
        intros Heq%list_elem_of_singleton. apply Hsrv. rewrite <- Heq.
        apply list_elem_of_fmap. by exists x. }
      split; [cbn; f_equal; exact IH1|].
      rewrite IH2, pd_set_fresh by done. unfold launched_entries. simpl.
      by rewrite <- app_assoc.
    + destruct (IH d w2 Hnd Hun) as [IH1 IH2].
      split; [cbn; f_equal; exact IH1|exact IH2].
Qed.

Lemma launched_entries_keys evs :
  (launched_entries evs).*1 =
  (fun ev => name (pe_server ev)) <$> List.filter launched evs.
Proof.
  unfold launched_entries, launched.
  induction evs as [|ev evs IH]; [done|]. simpl.
  destruct (pe_proc ev); simpl; [f_equal|]; exact IH.
Qed.

Lemma launched_entries_procs evs :
  Some <$> (launched_entries evs).*2 = pe_proc <$> List.filter launched evs.
Proof.
  unfold launched_entries, launched.
  induction evs as [|ev evs IH]; [done|]. simpl.
  destruct (pe_proc ev) eqn:E; simpl; [rewrite E; f_equal|]; exact IH.
Qed.

(** What is left of the table after the loop of [stop_all]. *)
Lemma stop_loop_remaining items procs w :
  remaining (stop_loop terminate items procs w) = foldl pd_pop procs items.*1.
Proof.
  revert procs w. induction items as [|[n proc] rest IH]; intros procs w; [done|].
  simpl. destruct (terminate proc w) as [[] w1]; simpl; apply IH.
Qed.

Lemma pop_all_keys (procs : list (string * nat)) keys :
  Forall (fun kv => kv.1 ∈ keys) procs -> foldl pd_pop procs keys = [].
Proof.
  revert procs. induction keys as [|k ks IH]; intros procs Hall.
  - destruct procs as [|kv procs]; [done|].
    apply Forall_cons in Hall as [Hin _]. by apply elem_of_nil in Hin.
  - simpl. apply IH. unfold pd_pop.
    induction Hall as [|kv procs Hkv _ IHp]; [constructor|]. simpl.
    destruct (decide (kv.1 = k)) as [Heq|Hne].
    + rewrite bool_decide_true by done. exact IHp.
    + rewrite bool_decide_false by done. simpl. constructor; [|exact IHp].
      apply elem_of_cons in Hkv as [?|?]; done.
Qed.

Lemma stop_loop_terminated items procs w :
  (fun x => (x.1.1, x.1.2)) <$> terminated (stop_loop terminate items procs w)
    = items /\
  stopped (stop_loop terminate items procs w) =
    (fun x => x.1.1) <$>
      List.filter (fun x => x.2) (terminated (stop_loop terminate items procs w)).
Proof.
  revert procs w. induction items as [|[n proc] rest IH]; intros procs w; [done|].
  simpl. destruct (terminate proc w) as [[] w1];
    destruct (IH (pd_pop procs n) w1) as [IH1 IH2]; cbn;
    (split; [f_equal; exact IH1|]); [f_equal|]; exact IH2.
Qed.

Lemma stop_loop_all_return items procs w :
  (forall proc w', (terminate proc w').1 = true) ->
  stopped (stop_loop terminate items procs w) = items.*1.
Proof.
  intros Hok. revert procs w.
  induction items as [|[n proc] rest IH]; intros procs w; [done|].
  simpl. pose proof (Hok proc w) as Hp.
  destruct (terminate proc w) as [[] w1]; [|done]. simpl. by rewrite IH.
Qed.

Lemma poll_all_keys items status w :
  NoDup (status.*1 ++ items.*1) ->
  (poll_all os items status w).1.*1 = status.*1 ++ items.*1.
Proof.
  revert status w. induction items as [|[n proc] rest IH]; intros status w Hnd.
  - simpl. by rewrite app_nil_r.
  - simpl in *. apply NoDup_app in Hnd as (Hs & Hdisj & Hit).
    apply NoDup_cons in Hit as [Hn Hrest].
    assert (n ∉ status.*1) as Hfresh.
    { intros Hin. apply (Hdisj n Hin). by left. }
    assert (forall b, NoDup ((pd_set status n b).*1 ++ rest.*1)) as Hnd'.
    { intros b. rewrite pd_set_fresh, fmap_app by done. simpl.
      rewrite <- app_assoc. simpl. apply NoDup_app. split; [done|]. split.
      - intros x Hx Hin. apply elem_of_cons in Hin as [->|Hin]; [done|].
        apply (Hdisj x Hx). by right.
      - by apply NoDup_cons. }
    destruct (poll os proc w) as [[rc|] w1]; rewrite (IH _ _ (Hnd' _));
      rewrite pd_set_fresh, fmap_app by done; simpl; by rewrite <- app_assoc.
Qed.

Lemma poll_all_other items status w n :
  n ∉ items.*1 -> pd_get (poll_all os items status w).1 n = pd_get status n.
Proof.
  revert status w. induction items as [|[k proc] rest IH]; intros status w Hn;
    [done|].
  simpl in *. apply not_elem_of_cons in Hn as [Hne Hn].
  destruct (poll os proc w) as [[rc|] w1]; rewrite (IH _ _ Hn), pd_get_set;
    by rewrite decide_False.
Qed.

Lemma poll_all_steady items status w n proc b :
  NoDup items.*1 ->
  (n, proc) ∈ items ->
  (forall w', match (poll os proc w').1 with None => true | Some _ => false end = b) ->
  pd_get (poll_all os items status w).1 n = Some b.
Proof.
  intros Hnd Hin Hb. revert status w.
  induction items as [|[k p] rest IH]; intros status w;
    [by apply elem_of_nil in Hin|].
  simpl in *. apply NoDup_cons in Hnd as [Hk Hnd].
  apply elem_of_cons in Hin as [[= <- <-]|Hin].
  - pose proof (Hb w) as Hw.
    destruct (poll os proc w) as [[rc|] w1]; simpl in Hw; subst b;
      rewrite (poll_all_other _ _ _ _ Hk), pd_get_set; by rewrite decide_True.
  - destruct (poll os p w) as [[rc|] w1]; by apply IH.
Qed.

Lemma default_stopped_get servers (status : list (string * bool)) n :
  pd_get (default_stopped servers status) n =
  match pd_get status n with
  | Some b => Some b
  | None => if decide (n ∈ name <$> servers) then Some false else None
  end.
Proof.
  revert status. induction servers as [|srv rest IH]; intros status.
  - simpl. destruct (pd_get status n); [done|].
    destruct (decide (n ∈ [])) as [Hin|]; [by apply elem_of_nil in Hin|done].
  - cbn [default_stopped]. rewrite IH, pd_get_setdefault, fmap_cons.
    destruct (pd_get status n) as [b|]; [done|].
    destruct (decide (name srv = n)) as [<-|Hne].
    + rewrite decide_True; [done|by left].
    + destruct (decide (n ∈ name <$> rest)) as [Hin|Hout].
      * rewrite decide_True; [done|by right].
      * rewrite decide_False; [done|]. rewrite not_elem_of_cons. by split.
Qed.

Lemma default_stopped_prefix servers (status : list (string * bool)) :
  status `prefix_of` default_stopped servers status.
Proof.
  revert status. induction servers as [|srv rest IH]; intros status; [done|].
  simpl. etrans; [apply pd_setdefault_prefix|apply IH].
Qed.

Lemma start_all_dict_started servers d w :
  ds_started (start_all_dict os servers d w) =
  (fun ev => name (pe_server ev)) <$>
    List.filter launched (ds_spawned (start_all_dict os servers d w)).
Proof.
  revert d w. induction servers as [|srv rest IH]; intros d w; [done|].
  simpl. destruct (is_running_dict os d srv w) as [[] w1]; [apply IH|].
  destruct (popen os _ _ w1) as [[proc|] w2]; cbn; [f_equal|]; apply IH.
Qed.

Lemma stop_all_remaining d w : remaining (stop_all terminate d w) = [].
Proof.
  unfold stop_all. rewrite stop_loop_remaining. apply pop_all_keys.
  apply Forall_forall. intros kv Hkv. apply list_elem_of_fmap. by exists kv.
Qed.

End TableFacts.

(** X1.  [start_all] does not depend on the order of the process table:
    run on the table as the dict Python keeps, it returns the same names,
    makes the same [Popen] calls, leaves the same world and, read as a
    mapping, the same table as [start_all] run on the mapping. *)
Theorem start_all_dict_refines {W} (os : OS W) servers d w :
  ds_started (start_all_dict os servers d w)
    = started (start_all os servers (list_to_map d) w) /\
  list_to_map (ds_processes (start_all_dict os servers d w))
    = processes (start_all os servers (list_to_map d) w) /\
  ds_world (start_all_dict os servers d w)
    = os_world (start_all os servers (list_to_map d) w) /\
  ds_spawned (start_all_dict os servers d w)
    = spawned (start_all os servers (list_to_map d) w).
Proof.
  revert d w. induction servers as [|srv rest IH]; intros d w; [done|].
  simpl. rewrite is_running_dict_map.
  destruct (is_running os (list_to_map d) srv w) as [[] w1]; [apply IH|].
  destruct (popen os _ _ w1) as [[proc|] w2]; simpl.
  - destruct (IH (pd_set d (name srv) proc) w2) as (H1 & H2 & H3 & H4).
    rewrite pd_set_list_to_map in H1, H2, H3, H4.
    by rewrite H1, H2, H3, H4.
  - destruct (IH d w2) as (H1 & H2 & H3 & H4). by rewrite H1, H2, H3, H4.
Qed.

(** X2.  From an empty process table and a registry of distinct names,
    [start_all] launches every configured server once, in registry order;
    the table afterwards holds exactly the launches that gave a process, in
    that order and under distinct names, and the returned list is the list
    of its keys. *)
Theorem start_all_fresh_table {W} (os : OS W) servers w :
  NoDup (name <$> servers) ->
  pe_server <$> ds_spawned (start_all_dict os servers [] w) = servers /\
  ds_processes (start_all_dict os servers [] w)
    = launched_entries (ds_spawned (start_all_dict os servers [] w)) /\
  ds_started (start_all_dict os servers [] w)
    = (ds_processes (start_all_dict os servers [] w)).*1 /\
  NoDup (ds_processes (start_all_dict os servers [] w)).*1.
Proof.
  intros Hnd.
  destruct (start_all_dict_untracked os servers [] w Hnd) as [H1 H2].
  { apply Forall_forall. intros srv _. apply not_elem_of_nil. }
  split; [exact H1|]. split; [exact H2|]. split.
  - rewrite H2. simpl. rewrite launched_entries_keys.
    apply start_all_dict_started.
  - apply start_all_dict_NoDup. constructor.
Qed.

Lemma start_all_fresh_table_witness :
  ds_processes
    (start_all_dict Demo.os [Demo.fs; Demo.broken; Demo.web] [] (0, []))
    = [("fs", 0); ("web", 1)] /\
  ds_started
    (start_all_dict Demo.os [Demo.fs; Demo.broken; Demo.web] [] (0, []))
    = ["fs"; "web"].
Proof.
  destruct (start_all_fresh_table Demo.os [Demo.fs; Demo.broken; Demo.web]
              (0, []) ltac:(compute_done)) as (_ & H2 & H3 & _).
  split; [by rewrite H2|by rewrite H3, H2].
Defined.

(** X3.  [stop_all] calls [terminate] once on every tracked process, in
    the order of the table, returns the names of those for which the call
    returned, and leaves the table empty whether the calls returned or
    raised; a second [stop_all] right after it returns the empty list and
    calls nothing. *)
Theorem stop_all_empties_table {W} (terminate : nat -> W -> bool * W) d w :
  remaining (stop_all terminate d w) = [] /\
  (fun x => (x.1.1, x.1.2)) <$> terminated (stop_all terminate d w) = d /\
  stopped (stop_all terminate d w) =
    (fun x => x.1.1) <$>
      List.filter (fun x => x.2) (terminated (stop_all terminate d w)) /\
  stop_all terminate (remaining (stop_all terminate d w))
      (stop_world (stop_all terminate d w))
    = mkStopped [] [] (stop_world (stop_all terminate d w)) [].
Proof.
  pose proof (stop_all_remaining terminate d w) as Hrem.
  destruct (stop_loop_terminated terminate d d w) as [H1 H2].
  split; [exact Hrem|]. split; [exact H1|]. split; [exact H2|].
  by rewrite Hrem.
Qed.

(** X4.  [get_status], on a table of distinct names: the keys of the
    table come first, in the order of the table; a name has no entry exactly
    when it is neither tracked nor configured; a configured server that is
    not tracked is reported [False]; a tracked server whose process polls the
    same in every world is reported accordingly, running or not. *)
Theorem get_status_entries {W} (os : OS W) servers d w :
  NoDup d.*1 ->
  d.*1 `prefix_of` (get_status os servers d w).1.*1 /\
  (forall n,
     pd_get (get_status os servers d w).1 n = None <->
     (n ∉ d.*1) /\ (n ∉ name <$> servers)) /\
  (forall n,
     n ∉ d.*1 -> n ∈ name <$> servers ->
     pd_get (get_status os servers d w).1 n = Some false) /\
  (forall n proc b,
     (n, proc) ∈ d ->
     (forall w',
        match (poll os proc w').1 with None => true | Some _ => false end = b) ->
     pd_get (get_status os servers d w).1 n = Some b).
Proof.
  intros Hnd. unfold get_status.
  pose proof (poll_all_keys os d [] w Hnd) as Hkeys.
  pose proof (poll_all_other os d [] w) as Hother.
  pose proof (poll_all_steady os d [] w) as Hsteady.
  destruct (poll_all os d [] w) as [status w1]. simpl in *.
  split; [|split; [|split]].
  - rewrite <- Hkeys.
    destruct (default_stopped_prefix servers status) as [k ->].
    exists (k.*1). by rewrite fmap_app.
  - intros n. rewrite default_stopped_get.
    destruct (pd_get status n) as [b|] eqn:Hn.
    + split; [done|]. intros [Hd _].
      apply Hother in Hd. simpl in Hd. congruence.
    + apply pd_get_None in Hn. rewrite Hkeys in Hn.
      destruct (decide (n ∈ name <$> servers)); split; try done.
      by intros [_ ?].
  - intros n Hd Hin. rewrite default_stopped_get, (Hother n Hd). simpl.
    by rewrite decide_True.
  - intros n proc b Hin Hb. rewrite default_stopped_get.
    by rewrite (Hsteady n proc b Hnd Hin Hb).
Qed.

Lemma get_status_entries_witness :
  pd_get (get_status Demo.os [Demo.fs; Demo.broken] [("fs", 0)] (1, [])).1
    "broken" = Some false /\
  pd_get (get_status Demo.os [Demo.fs; Demo.broken] [("fs", 0)] (1, [0])).1
    "missing" = None.
Proof.
  split.
  - apply (get_status_entries Demo.os [Demo.fs; Demo.broken] [("fs", 0)] (1, [])
             ltac:(compute_done)); compute_done.
  - apply (get_status_entries Demo.os [Demo.fs; Demo.broken] [("fs", 0)] (1, [0])
             ltac:(compute_done)). split; compute_done.
Defined.

(** X5.  [stop_all] right after a [start_all] that started from an empty
    table, on a registry of distinct names, when no [terminate] raises:
    it returns exactly the names [start_all] returned, in the same order, has
    called [terminate] on exactly the processes [start_all] obtained, and
    leaves the table empty. *)
Theorem stop_all_after_start_all {W} (os : OS W)
    (terminate : nat -> W -> bool * W) servers w :
  NoDup (name <$> servers) ->
  (forall proc w', (terminate proc w').1 = true) ->
  let r := start_all_dict os servers [] w in
  let r' := stop_all terminate (ds_processes r) (ds_world r) in
  stopped r' = ds_started r /\
  remaining r' = [] /\
  Some <$> ((fun x => x.1.2) <$> terminated r')
    = pe_proc <$> List.filter launched (ds_spawned r).
Proof.
  intros Hnd Hok r r'.
  destruct (start_all_dict_untracked os servers [] w Hnd) as [_ H2].
  { apply Forall_forall. intros srv _. apply not_elem_of_nil. }
  simpl in H2. fold r in H2.
  destruct (stop_loop_terminated terminate (ds_processes r) (ds_processes r)
              (ds_world r)) as [Hterm _].
  split; [|split; [apply stop_all_remaining|]].
  - subst r'. unfold stop_all. rewrite stop_loop_all_return by done.
    rewrite H2, launched_entries_keys. symmetry. apply start_all_dict_started.
  - rewrite <- launched_entries_procs, <- H2.
    subst r'. unfold stop_all. rewrite <- Hterm at 3.
    by rewrite <- !list_fmap_compose.
Qed.

Lemma stop_all_after_start_all_witness :
  let r := start_all_dict Demo.os [Demo.fs; Demo.broken; Demo.web] [] (0, []) in
  stopped (stop_all DemoTable.terminate (ds_processes r) (ds_world r))
    = ["fs"; "web"].
Proof.
  intros r.
  destruct (stop_all_after_start_all Demo.os DemoTable.terminate
              [Demo.fs; Demo.broken; Demo.web] (0, [])) as (H1 & _ & _);
    [compute_done | done |].
  fold r in H1. rewrite H1. reflexivity.
Defined.

(** X6.  [get_status] right after [stop_all] polls nothing and reports
    every configured server, and no other name, as not running, whatever the
    table was and whatever [terminate] did. *)
Theorem get_status_after_stop_all {W} (os : OS W)
    (terminate : nat -> W -> bool * W) servers d w :
  let r := stop_all terminate d w in
  (get_status os servers (remaining r) (stop_world r)).2 = stop_world r /\
  forall n,
    pd_get (get_status os servers (remaining r) (stop_world r)).1 n =
    if decide (n ∈ name <$> servers) then Some false else None.
Proof.
  intros r. subst r. rewrite stop_all_remaining.
  unfold get_status. simpl. split; [done|].
  intros n. by rewrite default_stopped_get.
Qed.

(** ** More on call_tool and list_tools *)

Section MoreSessionFacts.
Context {W : Type} (sdk : SDK W).

Local Ltac find_event :=
  repeat first [apply list_elem_of_here | apply list_elem_of_further].

(** An attempt that returns a value has listed the tools, found the tool
    among them, invoked it, and torn its session down without an error. *)
Lemma try_call_returned tool arguments srv s r s1 t1 :
  _try_call sdk tool arguments srv s = (Ok r, s1, t1) ->
  exists tools res,
    EvListTools (mkSession (next_sid s) (session_params srv)) (Ok tools) ∈ t1 /\
    tool ∈ tool_name <$> tools /\
    EvCallTool (mkSession (next_sid s) (session_params srv)) tool arguments
      (Ok res) ∈ t1 /\
    r = getattr_content res /\
    last t1 = Some (EvTerminate (mkSession (next_sid s) (session_params srv)) (Ok tt)).
Proof.
  run_attempt; intros [= <- <- <-].
  eexists _, _. split; [find_event|]. split; [eassumption|].
  split; [find_event|]. split; reflexivity.
Qed.

Lemma scan_returned tool arguments servers last_err s r s' tr :
  scan sdk tool arguments servers last_err s = (Ok r, s', tr) ->
  exists sess tools res,
    EvListTools sess (Ok tools) ∈ tr /\
    tool ∈ tool_name <$> tools /\
    EvCallTool sess tool arguments (Ok res) ∈ tr /\
    r = getattr_content res /\
    last tr = Some (EvTerminate sess (Ok tt)).
Proof.
  revert last_err s tr. induction servers as [|srv rest IH]; intros last_err s tr E.
  - discriminate.
  - destruct (_try_call sdk tool arguments srv s) as [[[r1|e|] s1] t1] eqn:E1.
    + rewrite (scan_return _ _ _ _ _ _ _ _ _ _ E1) in E. simplify_eq.
      destruct (try_call_returned _ _ _ _ _ _ _ E1) as (tools & res & H).
      by exists (mkSession (next_sid s) (session_params srv)), tools, res.
    + rewrite (scan_advance _ _ _ _ _ _ _ _ _ _ E1) in E.
      destruct (scan sdk tool arguments rest (Some e) s1) as [[o2 s2] t2] eqn:E2.
      simplify_eq.
      destruct (IH _ _ _ E2) as (sess & tools & res & H1 & H2 & H3 & H4 & H5).
      exists sess, tools, res. rewrite !elem_of_app, last_app, H5. auto.
    + rewrite (scan_blocked _ _ _ _ _ _ _ _ _ E1) in E. discriminate.
Qed.

(** The scan never raises the configuration error. *)
Lemma scan_not_config_error tool arguments servers last_err s :
  (scan sdk tool arguments servers last_err s).1.1 <> Raise no_matching_server.
Proof.
  revert last_err s. induction servers as [|srv rest IH]; intros last_err s.
  - simpl. unfold invocation_failed, no_matching_server. discriminate.
  - destruct (_try_call sdk tool arguments srv s) as [[[r1|e|] s1] t1] eqn:E1.
    + by rewrite (scan_return _ _ _ _ _ _ _ _ _ _ E1).
    + rewrite (scan_advance _ _ _ _ _ _ _ _ _ _ E1).
      specialize (IH (Some e) s1).
      by destruct (scan sdk tool arguments rest (Some e) s1) as [[o2 s2] t2].
    + by rewrite (scan_blocked _ _ _ _ _ _ _ _ _ E1).
Qed.

End MoreSessionFacts.

Section CandidateFacts.
Context {W : Type} (sdk : SDK W).

Lemma filter_name_nil servers n :
  List.filter (fun s => bool_decide (name s = n)) servers = [] ->
  n ∉ name <$> servers.
Proof.
  induction servers as [|srv rest IH]; [intros _; apply not_elem_of_nil|].
  simpl. destruct (decide (name srv = n)) as [Heq|Hne].
  - by rewrite bool_decide_true.
  - rewrite bool_decide_false by done. intros Hrest.
    apply not_elem_of_cons. split; [congruence|auto].
Qed.

Lemma candidates_nil servers server_name :
  candidates servers server_name = [] <->
  servers = [] \/
  exists n, server_name = Some n /\ n <> "" /\ (n ∉ name <$> servers).
Proof.
  destruct (truthy server_name) eqn:Ht.
  - destruct server_name as [[|a n]|]; try discriminate.
    rewrite candidates_pinned by done. split.
    + intros Hnil. right. exists (String a n). split; [done|]. split; [done|].
      by apply filter_name_nil.
    + intros [->|(n' & [= <-] & _ & Habs)]; [done|].
      by apply filter_name_absent.
  - rewrite candidates_unpinned by done. split; [by left|].
    intros [?|(n & -> & Hn & _)]; [done|]. by destruct n.
Qed.

(** [list_tools] skips exactly the servers that are no candidates of
    [call_tool]. *)
Lemma gather_cons_candidate srv rest server_name result s :
  _gather sdk (srv :: rest) server_name result s =
  if negb (truthy server_name) || bool_decide (Some (name srv) = server_name)
  then (let* names := _list_for_srv sdk srv in
        _gather sdk rest server_name (<[name srv := names]> result)) s
  else _gather sdk rest server_name result s.
Proof.
  cbn [_gather].
  by destruct (truthy server_name), (bool_decide (Some (name srv) = server_name)).
Qed.

Lemma gather_spawn_prefix servers server_name result s :
  spawn_requests (_gather sdk servers server_name result s).2
    `prefix_of` session_params <$> candidates servers server_name.
Proof.
  revert result s. induction servers as [|srv rest IH]; intros result s.
  - by exists [].
  - rewrite gather_cons_candidate. unfold candidates in *. simpl.
    destruct (negb (truthy server_name) || bool_decide (Some (name srv) = server_name));
      [|apply IH].
    unfold bind.
    destruct (_list_for_srv sdk srv s) as [[[names|e|] s1] t1] eqn:E1;
      apply list_for_srv_inv in E1 as (_ & Hsp & _).
    + specialize (IH (<[name srv := names]> result) s1).
      destruct (_gather sdk rest server_name _ s1) as [[o2 s2] t2].
      simpl in *. rewrite spawn_requests_app, Hsp.
      by apply (prefix_app [session_params srv]).
    + simpl. rewrite Hsp. by eexists.
    + simpl. rewrite Hsp. by eexists.
Qed.

Lemma gather_returned servers server_name result s m s' tr :
  _gather sdk servers server_name result s = (Ok m, s', tr) ->
  spawn_requests tr = session_params <$> candidates servers server_name /\
  dom m = dom result ∪ list_to_set (name <$> candidates servers server_name).
Proof.
  revert result s tr. induction servers as [|srv rest IH]; intros result s tr E.
  - unfold _gather, ret in E. simplify_eq. simpl.
    by rewrite (right_id_L ∅ (∪)).
  - rewrite gather_cons_candidate in E. unfold candidates in *. simpl.
    destruct (negb (truthy server_name) || bool_decide (Some (name srv) = server_name));
      [|by apply IH in E].
    unfold bind in E.
    destruct (_list_for_srv sdk srv s) as [[[names|e|] s1] t1] eqn:E1; try done.
    destruct (_gather sdk rest server_name _ s1) as [[o2 s2] t2] eqn:E2.
    simplify_eq. apply list_for_srv_inv in E1 as (_ & Hsp & _).
    destruct (IH _ _ _ E2) as [IH1 IH2].
    rewrite spawn_requests_app, Hsp, IH1, IH2, dom_insert_L. simpl.
    split; [done|].
    by rewrite (comm_L (∪) {[name srv]} (dom result)), <- (assoc_L (∪)).
Qed.

End CandidateFacts.

(** X7.  Whatever [call_tool] returns is what an invocation of the
    requested tool, with the given arguments, was answered: the [content] of
    that answer if it has one, else the answer itself, also when the answer
    is flagged as an error.  The invocation was made on a session whose
    listing advertised the tool, and the teardown of that session, which
    returned without an error, was the last thing the call did. *)
Theorem call_tool_returns_invocation_reply {W} (sdk : SDK W) servers tool
    arguments server_name s r s' tr :
  call_tool sdk servers tool arguments server_name s = (Ok r, s', tr) ->
  exists sess tools res,
    EvListTools sess (Ok tools) ∈ tr /\
    tool ∈ tool_name <$> tools /\
    EvCallTool sess tool (default ∅ arguments) (Ok res) ∈ tr /\
    r = match content res with Some c => RetContent c | None => RetRaw res end /\
    last tr = Some (EvTerminate sess (Ok tt)).
Proof.
  unfold call_tool, _run_all.
  destruct (candidates servers server_name) as [|c cs]; [discriminate|].
  apply scan_returned.
Qed.

Lemma call_tool_returns_invocation_reply_witness :
  exists sess tools res,
    EvListTools sess (Ok tools)
      ∈ (call_tool Demo.sdk [Demo.fs; Demo.web] "read_file" None None Demo.s0).2 /\
    "read_file" ∈ tool_name <$> tools /\
    content res = Some ["read_file"] /\
    sp_command (params sess) = "tool-web".
Proof.
  destruct (call_tool Demo.sdk [Demo.fs; Demo.web] "read_file" None None Demo.s0)
    as [[o s'] tr] eqn:E.
  assert (o = Ok (RetContent ["read_file"])) as -> by (vm_compute in E; congruence).
  destruct (call_tool_returns_invocation_reply _ _ _ _ _ _ _ _ _ E)
    as (sess & tools & res & H1 & H2 & _ & H4 & H5).
  exists sess, tools, res. split; [exact H1|]. split; [exact H2|]. split.
  - destruct (content res); by simplify_eq.
  - vm_compute in E. injection E as _ <-. simpl in H5. by simplify_eq.
Defined.

(** X8.  Once the invocation of an attempt has been answered, the
    teardown decides the outcome of the attempt.  The value is returned when
    both teardown steps return.  An exception of a teardown step replaces
    the value: the attempt fails with it (and [call_tool] goes on to the next
    candidate).  A teardown step that is not answered blocks the attempt. *)
Theorem teardown_decides_after_invocation {W} (sdk : SDK W) tool arguments srv
    s o s1 t1 sess res :
  _try_call sdk tool arguments srv s = (o, s1, t1) ->
  EvCallTool sess tool arguments (Ok res) ∈ t1 ->
  (o = Ok (getattr_content res) /\
   EvSessionExit sess (Ok tt) ∈ t1 /\ EvTerminate sess (Ok tt) ∈ t1) \/
  (exists e,
     o = Raise e /\
     (EvTerminate sess (Raise e) ∈ t1 \/
      (EvSessionExit sess (Raise e) ∈ t1 /\ EvTerminate sess (Ok tt) ∈ t1)) /\
     forall rest last_err,
       scan sdk tool arguments (srv :: rest) last_err s =
       (let '(o2, s2, t2) := scan sdk tool arguments rest (Some e) s1 in
        (o2, s2, t1 ++ t2))) \/
  (o = Hang /\ (EvSessionExit sess Hang ∈ t1 \/ EvTerminate sess Hang ∈ t1)).
Proof.
  intros E Hin.
  assert (forall e, o = Raise e -> forall rest last_err,
            scan sdk tool arguments (srv :: rest) last_err s =
            (let '(o2, s2, t2) := scan sdk tool arguments rest (Some e) s1 in
             (o2, s2, t1 ++ t2))) as Hadv.
  { intros e -> rest last_err. by apply scan_advance. }
  revert E Hin Hadv. run_attempt; intros [= <- <- <-] Hin Hadv;
    rewrite ?elem_of_cons, ?elem_of_nil in Hin;
    repeat (destruct Hin as [Hin|Hin]); try done; simplify_eq;
    first
      [ left; split; [reflexivity|];
        split; repeat first [apply list_elem_of_here | apply list_elem_of_further]
      | right; left; eexists; split; [reflexivity|];
        split; [|by apply Hadv];
        first
          [ left; by repeat first [apply list_elem_of_here | apply list_elem_of_further]
          | right; split;
            by repeat first [apply list_elem_of_here | apply list_elem_of_further] ]
      | right; right; split; [reflexivity|];
        first
          [ left; by repeat first [apply list_elem_of_here | apply list_elem_of_further]
          | right; by repeat first [apply list_elem_of_here | apply list_elem_of_further] ] ].
Qed.

Lemma teardown_decides_after_invocation_witness :
  exists e,
    (_try_call DemoTeardown.sdk "list_dir" ∅ Demo.fs Demo.s0).1.1 = Raise e.
Proof.
  destruct (_try_call DemoTeardown.sdk "list_dir" ∅ Demo.fs Demo.s0)
    as [[o s1] t1] eqn:E.
  destruct (teardown_decides_after_invocation DemoTeardown.sdk "list_dir" ∅
              Demo.fs Demo.s0 o s1 t1 (mkSession 0 (session_params Demo.fs))
              (mkResult (Some ["list_dir"]) false) E) as [H|[H|H]].
  - vm_compute in E. injection E as _ _ <-.
    repeat first [apply list_elem_of_here | apply list_elem_of_further].
  - destruct H as [-> _]. vm_compute in E. discriminate.
  - destruct H as (e & -> & _). by exists e.
  - destruct H as [-> _]. vm_compute in E. discriminate.
Defined.

(** X9.  [call_tool] raises the configuration error exactly when there is
    no candidate, that is when no server is configured or when the
    [server_name] given (a non-empty one) is the name of no configured
    server; it has then contacted nothing.  Every other failure is the
    failure of the scan, with another message. *)
Theorem call_tool_config_error_iff {W} (sdk : SDK W) servers tool arguments
    server_name s :
  ((call_tool sdk servers tool arguments server_name s).1.1
     = Raise (RuntimeError "未找到匹配的 MCP 服务器配置") <->
   candidates servers server_name = []) /\
  (candidates servers server_name = [] <->
   servers = [] \/
   exists n, server_name = Some n /\ n <> "" /\ (n ∉ name <$> servers)) /\
  (candidates servers server_name = [] ->
   call_tool sdk servers tool arguments server_name s
     = (Raise (RuntimeError "未找到匹配的 MCP 服务器配置"), s, [])).
Proof.
  split; [|split; [apply candidates_nil|]].
  - unfold call_tool, _run_all.
    destruct (candidates servers server_name) as [|c cs] eqn:Ec; [done|].
    split; [|done]. intros Hcfg.
    by destruct (scan_not_config_error sdk tool (default ∅ arguments) (c :: cs)
                   None s).
  - intros Hnil. unfold call_tool, _run_all. by rewrite Hnil.
Qed.

Lemma call_tool_config_error_iff_witness :
  call_tool Demo.sdk [] "read_file" None None Demo.s0
    = (Raise (RuntimeError "未找到匹配的 MCP 服务器配置"), Demo.s0, []).
Proof.
  apply (call_tool_config_error_iff Demo.sdk [] "read_file" None None Demo.s0).
  reflexivity.
Defined.

(** X10.  [list_tools] queries exactly the servers that [call_tool] would
    take as candidates for the same [server_name], in the same order: its
    spawn requests are always those of the first of them, and when it
    returns they are those of all of them, and the names of the mapping are
    the names of these servers. *)
Theorem list_tools_queries_candidates {W} (sdk : SDK W) servers server_name s :
  spawn_requests (list_tools sdk servers server_name s).2
    `prefix_of` session_params <$> candidates servers server_name /\
  forall m,
    (list_tools sdk servers server_name s).1.1 = Ok m ->
    spawn_requests (list_tools sdk servers server_name s).2
      = session_params <$> candidates servers server_name /\
    dom m = list_to_set (name <$> candidates servers server_name).
Proof.
  unfold list_tools. split; [apply gather_spawn_prefix|].
  intros m Hm.
  destruct (_gather sdk servers server_name ∅ s) as [[o s'] tr] eqn:E.
  simpl in Hm. subst o.
  destruct (gather_returned _ _ _ _ _ _ _ _ E) as [H1 H2].
  split; [exact H1|]. by rewrite H2, dom_empty_L, (left_id_L ∅ (∪)).
Qed.

Lemma list_tools_queries_candidates_witness :
  spawn_requests
    (list_tools Demo.sdk [Demo.fs; Demo.web; Demo.broken] (Some "web") Demo.s0).2
    = [session_params Demo.web].
Proof.
  destruct (list_tools_queries_candidates Demo.sdk
              [Demo.fs; Demo.web; Demo.broken] (Some "web") Demo.s0) as [_ H].
  destruct (H {["web" := ["fetch"; "read_file"]]}) as [H1 _];
    [vm_compute; reflexivity|].
  rewrite H1. reflexivity.
Defined.

(** X11.  The query of one server never raises.  When a step of its
    session raised (the spawn, the handshake, the listing, or the teardown
    after a listing that was answered) it gives the empty list, unless a
    later step blocks.  When no step raised, what it gives is the names of
    the tools the listing was answered with, in the order of the answer. *)
Theorem list_for_srv_result {W} (sdk : SDK W) srv s o s1 t1 :
  _list_for_srv sdk srv s = (o, s1, t1) ->
  (forall e, o <> Raise e) /\
  (existsb raised t1 = true -> o = Ok [] \/ o = Hang) /\
  (existsb raised t1 = false ->
   forall names, o = Ok names ->
     exists tools,
       EvListTools (mkSession (next_sid s) (session_params srv)) (Ok tools) ∈ t1 /\
       names = tool_name <$> tools).
Proof.
  unfold _list_for_srv, _list_run. unfold_attempt. simpl.
  repeat sdk_step; intros [= <- <- <-]; simpl;
    (split; [done|]); (split; [first [done | intros _; by auto]|]);
    first
      [ done
      | intros _ names [= <-]; eexists; split; [|reflexivity];
        repeat first [apply list_elem_of_here | apply list_elem_of_further] ].
Qed.

Lemma list_for_srv_result_witness :
  (_list_for_srv DemoTeardown.sdk Demo.fs Demo.s0).1.1 = Ok [] /\
  exists tools,
    EvListTools (mkSession 0 (session_params Demo.fs)) (Ok tools)
      ∈ (_list_for_srv Demo.sdk Demo.fs Demo.s0).2 /\
    ["list_dir"] = tool_name <$> tools.
Proof.
  split.
  - destruct (_list_for_srv DemoTeardown.sdk Demo.fs Demo.s0)
      as [[o s1] t1] eqn:E.
    destruct (list_for_srv_result DemoTeardown.sdk Demo.fs Demo.s0 o s1 t1 E)
      as (_ & H2 & _).
    destruct H2 as [->| ->]; [|done|].
    + vm_compute in E. by injection E as _ _ <-.
    + vm_compute in E. discriminate.
  - destruct (_list_for_srv Demo.sdk Demo.fs Demo.s0) as [[o s1] t1] eqn:E.
    destruct (list_for_srv_result Demo.sdk Demo.fs Demo.s0 o s1 t1 E)
      as (_ & _ & H3).
    apply H3; vm_compute in E; [by injection E as _ _ <-|congruence].
Defined.

(** ** The configuration, the agent and the model adapters *)

Section ConfigFacts.
Context {F : Type} (py_int : string -> option Z) (py_float : string -> option F).

(** Each field of the configuration depends on its own variable only. *)
Lemma load_config_fields (getenv : string -> option string) (c : Config F) :
  load_config py_int py_float getenv c =
  mkConfig
    (override_text (getenv "AGENT_PROVIDER") (provider c))
    (override_text (getenv "AGENT_MODEL_NAME") (model_name c))
    (override_number py_int (getenv "AGENT_MAX_NEW_TOKENS") (max_new_tokens c))
    (override_number py_float (getenv "AGENT_TEMPERATURE") (temperature c))
    (override_text (getenv "AGENT_DEVICE") (device c))
    (mcp_servers c).
Proof.
  destruct c as [p m n t d srvs]. unfold load_config.
  cbn [provider model_name max_new_tokens temperature device mcp_servers].
  assert (env_provider getenv (mkConfig p m n t d srvs)
          = mkConfig (override_text (getenv "AGENT_PROVIDER") p) m n t d srvs) as ->.
  { unfold env_provider. by destruct (getenv "AGENT_PROVIDER") as [[|? ?]|]. }
  generalize (override_text (getenv "AGENT_PROVIDER") p). intros p'.
  assert (env_model_name getenv (mkConfig p' m n t d srvs)
          = mkConfig p' (override_text (getenv "AGENT_MODEL_NAME") m) n t d srvs)
    as ->.
  { unfold env_model_name. by destruct (getenv "AGENT_MODEL_NAME") as [[|? ?]|]. }
  generalize (override_text (getenv "AGENT_MODEL_NAME") m). intros m'.
  assert (env_max_new_tokens py_int getenv (mkConfig p' m' n t d srvs)
          = mkConfig p' m'
              (override_number py_int (getenv "AGENT_MAX_NEW_TOKENS") n) t d srvs)
    as ->.
  { unfold env_max_new_tokens, override_number.
    destruct (getenv "AGENT_MAX_NEW_TOKENS") as [[|a v]|]; try done.
    by destruct (py_int (String a v)). }
  generalize (override_number py_int (getenv "AGENT_MAX_NEW_TOKENS") n).
  intros n'.
  assert (env_temperature py_float getenv (mkConfig p' m' n' t d srvs)
          = mkConfig p' m' n'
              (override_number py_float (getenv "AGENT_TEMPERATURE") t) d srvs)
    as ->.
  { unfold env_temperature, override_number.
    destruct (getenv "AGENT_TEMPERATURE") as [[|a v]|]; try done.
    by destruct (py_float (String a v)). }
  generalize (override_number py_float (getenv "AGENT_TEMPERATURE") t).
  intros t'.
  unfold env_device. by destruct (getenv "AGENT_DEVICE") as [[|? ?]|].
Qed.

Lemma override_text_twice v old :
  override_text v (override_text v old) = override_text v old.
Proof. by destruct v as [[|? ?]|]. Qed.

Lemma override_number_twice {A} (parse : string -> option A) v old :
  override_number parse v (override_number parse v old)
    = override_number parse v old.
Proof.
  destruct v as [[|a s]|]; try done. simpl. by destruct (parse (String a s)).
Qed.

(** X12.  [load_config] with no override in the environment, each of the
    five variables being unset or empty, gives the configuration of the file
    as it is; and applying the overrides of an environment a second time
    changes nothing.  The servers are those of the file whatever the
    environment. *)
Theorem load_config_no_override (getenv : string -> option string) (c : Config F) :
  ((forall k,
      k ∈ ["AGENT_PROVIDER"; "AGENT_MODEL_NAME"; "AGENT_MAX_NEW_TOKENS";
           "AGENT_TEMPERATURE"; "AGENT_DEVICE"] ->
      getenv k = None \/ getenv k = Some "") ->
   load_config py_int py_float getenv c = c) /\
  load_config py_int py_float getenv (load_config py_int py_float getenv c)
    = load_config py_int py_float getenv c /\
  mcp_servers (load_config py_int py_float getenv c) = mcp_servers c.
Proof.
  split; [|split].
  - intros Hno. rewrite load_config_fields.
    assert (forall k old,
              k ∈ ["AGENT_PROVIDER"; "AGENT_MODEL_NAME"; "AGENT_MAX_NEW_TOKENS";
                   "AGENT_TEMPERATURE"; "AGENT_DEVICE"] ->
              override_text (getenv k) old = old) as Ht.
    { intros k old Hk. by destruct (Hno k Hk) as [-> | ->]. }
    assert (forall A (parse : string -> option A) k old,
              k ∈ ["AGENT_PROVIDER"; "AGENT_MODEL_NAME"; "AGENT_MAX_NEW_TOKENS";
                   "AGENT_TEMPERATURE"; "AGENT_DEVICE"] ->
              override_number parse (getenv k) old = old) as Hn.
    { intros A parse k old Hk. by destruct (Hno k Hk) as [-> | ->]. }
    rewrite !Ht, !Hn
      by repeat first [apply list_elem_of_here | apply list_elem_of_further].
    by destruct c.
  - rewrite (load_config_fields getenv (load_config py_int py_float getenv c)).
    rewrite (load_config_fields getenv c). simpl.
    by rewrite !override_text_twice, !override_number_twice.
  - by rewrite load_config_fields.
Qed.

(** X13.  A value of [AGENT_MAX_NEW_TOKENS] that [int] rejects, or of
    [AGENT_TEMPERATURE] that [float] rejects, is ignored: the configuration
    is the one obtained with that variable unset, every other override
    applied. *)
Theorem load_config_ignores_bad_numbers (getenv : string -> option string)
    (c : Config F) :
  (forall v,
     getenv "AGENT_MAX_NEW_TOKENS" = Some v -> py_int v = None ->
     load_config py_int py_float getenv c
       = load_config py_int py_float (unset "AGENT_MAX_NEW_TOKENS" getenv) c) /\
  (forall v,
     getenv "AGENT_TEMPERATURE" = Some v -> py_float v = None ->
     load_config py_int py_float getenv c
       = load_config py_int py_float (unset "AGENT_TEMPERATURE" getenv) c).
Proof.
  split; intros v Hv Hbad; rewrite !load_config_fields; unfold unset; simpl;
    rewrite Hv; f_equal; destruct v as [|a v]; simpl; by rewrite ?Hbad.
Qed.

(** X14.  The provider and the model an agent is built with by the
    commands [chat], [run] and [batch]: the command-line option if it is
    given and not empty, else the environment variable if it is set and not
    empty, else the value of the file.  Building the agent fails, with
    [ValueError("Unknown provider: ...")], exactly when that provider is
    neither ["ollama"] nor ["huggingface"]; the agent built has the
    configuration and no tool client. *)
Theorem effective_provider (getenv : string -> option string)
    (provider_opt model_opt : option string) (c : Config F) :
  let c' := cli_overrides provider_opt model_opt
              (load_config py_int py_float getenv c) in
  provider c' =
    match provider_opt, getenv "AGENT_PROVIDER" with
    | Some (String a p), _ => String a p
    | _, Some (String a p) => String a p
    | _, _ => provider c
    end /\
  model_name c' =
    match model_opt, getenv "AGENT_MODEL_NAME" with
    | Some (String a m), _ => String a m
    | _, Some (String a m) => String a m
    | _, _ => model_name c
    end /\
  (ChatAgent_init c' = inl ("Unknown provider: " +:+ provider c') <->
   provider c' <> "ollama" /\ provider c' <> "huggingface") /\
  (forall a, ChatAgent_init c' = inr a -> cfg a = c' /\ mcp_client a = None).
Proof.
  intros c'. split; [|split; [|split]].
  - subst c'. rewrite load_config_fields. unfold cli_overrides, override_text.
    destruct provider_opt as [[|? ?]|], model_opt as [[|? ?]|]; simpl;
      by destruct (getenv "AGENT_PROVIDER") as [[|? ?]|].
  - subst c'. rewrite load_config_fields. unfold cli_overrides, override_text.
    destruct provider_opt as [[|? ?]|], model_opt as [[|? ?]|]; simpl;
      by destruct (getenv "AGENT_MODEL_NAME") as [[|? ?]|].
  - unfold ChatAgent_init.
    destruct (decide (provider c' = "ollama")) as [Ho|Ho]; [by split; [|intros []]|].
    destruct (decide (provider c' = "huggingface")) as [Hh|Hh];
      [by split; [|intros []]|].
    by split.
  - intros a. unfold ChatAgent_init.
    destruct (decide (provider c' = "ollama")); [by intros [= <-]|].
    destruct (decide (provider c' = "huggingface")); [by intros [= <-]|done].
Qed.

(** X15.  An agent that was just built cannot use a tool: [use_tool]
    raises [RuntimeError] and contacts nothing.  Once a client is attached,
    [use_tool] is [call_tool] on the registry of that client, also when the
    configuration of the agent lists other servers: [list_mcp_servers] goes
    on reading the configuration. *)
Theorem use_tool_needs_client {W} (sdk : SDK W) (c : Config F) (a : ChatAgent F)
    client tool kwargs s :
  ChatAgent_init c = inr a ->
  use_tool sdk a tool kwargs s
    = (Raise (RuntimeError "MCP 客户端尚未注入，无法调用工具"), s, []) /\
  use_tool sdk (attach_mcp_client a client) tool kwargs s
    = call_tool sdk client tool (kw_arguments kwargs) (kw_server_name kwargs) s /\
  list_mcp_servers (attach_mcp_client a client) = name <$> mcp_servers c.
Proof.
  unfold ChatAgent_init.
  destruct (decide (provider c = "ollama"));
    [|destruct (decide (provider c = "huggingface"))]; intros [= <-]; done.
Qed.

End ConfigFacts.

Lemma load_config_no_override_witness :
  load_config DemoConfig.py_int DemoConfig.py_float DemoConfig.no_env
    DemoConfig.file_cfg = DemoConfig.file_cfg.
Proof.
  apply (proj1 (load_config_no_override DemoConfig.py_int DemoConfig.py_float
                  DemoConfig.no_env DemoConfig.file_cfg)).
  intros k _. by left.
Defined.

Lemma load_config_ignores_bad_numbers_witness :
  max_new_tokens
    (load_config DemoConfig.py_int DemoConfig.py_float DemoConfig.getenv
       DemoConfig.file_cfg) = 256%Z.
Proof.
  rewrite (proj1 (load_config_ignores_bad_numbers DemoConfig.py_int
                    DemoConfig.py_float DemoConfig.getenv DemoConfig.file_cfg)
             "many" eq_refl eq_refl).
  reflexivity.
Defined.

Lemma effective_provider_witness :
  provider
    (cli_overrides (Some "") None
       (load_config DemoConfig.py_int DemoConfig.py_float DemoConfig.getenv
          DemoConfig.file_cfg)) = "huggingface" /\
  ChatAgent_init
    (cli_overrides (Some "Ollama") None
       (load_config DemoConfig.py_int DemoConfig.py_float DemoConfig.getenv
          DemoConfig.file_cfg)) = inl "Unknown provider: Ollama".
Proof.
  split.
  - by rewrite (proj1 (effective_provider DemoConfig.py_int DemoConfig.py_float
                         DemoConfig.getenv (Some "") None DemoConfig.file_cfg)).
  - destruct (effective_provider DemoConfig.py_int DemoConfig.py_float
                DemoConfig.getenv (Some "Ollama") None DemoConfig.file_cfg)
      as (Hp & _ & Hinit & _).
    destruct Hinit as [_ Hinit]. rewrite Hinit; rewrite Hp; [reflexivity|by split].
Defined.

Lemma use_tool_needs_client_witness :
  use_tool Demo.sdk
    (mkAgent DemoConfig.file_cfg (OllamaAdapter "llama3" 7%Z 256%Z) None)
    "list_dir" (mkKwargs None None) Demo.s0
    = (Raise (RuntimeError "MCP 客户端尚未注入，无法调用工具"), Demo.s0, []).
Proof.
  apply (use_tool_needs_client Demo.sdk DemoConfig.file_cfg _ [Demo.web]
           "list_dir" (mkKwargs None None) Demo.s0 eq_refl).
Defined.


(** ** What the adapters yield *)

Lemma prefix_append (p rest : string) : String.prefix p (p +:+ rest) = true.
Proof.
  induction p as [|a p IH]; simpl; [by destruct rest|].
  destruct (Ascii.ascii_dec a a); [exact IH|done].
Qed.

Lemma prefix_split (p t : string) :
  String.prefix p t = true -> p +:+ string_skip (String.length p) t = t.
Proof.
  revert t. induction p as [|a p IH]; intros t; [done|].
  destruct t as [|b t]; simpl; [done|].
  destruct (Ascii.ascii_dec a b) as [->|]; [|done].
  intros Hp.
  change (String b (p +:+ string_skip (String.length p) t) = String b t).
  by rewrite (IH t Hp).
Qed.

Lemma string_skip_append (p rest : string) :
  string_skip (String.length p) (p +:+ rest) = rest.
Proof. induction p as [|a p IH]; [done|exact IH]. Qed.

Lemma string_skip_suffix n (t : string) :
  exists pre, t = pre +:+ string_skip n t.
Proof.
  revert t. induction n as [|n IH]; intros t; [by exists ""|].
  destruct t as [|a t]; [by exists ""|].
  destruct (IH t) as [pre Hpre]. exists (String a pre).
  change (String a t = String a (pre +:+ string_skip n t)). by rewrite <- Hpre.
Qed.

(** X16.  [HFAdapter.generate] yields one chunk, which the decoded text
    ends with.  When the text is the prompt followed by something, the chunk
    is that something (so all of the text for the empty prompt); when the
    text does not begin with the prompt, the chunk is the whole text. *)
Theorem hf_output_strips_prompt (prompt text : string) :
  (exists chunk pre, hf_output prompt text = [chunk] /\ text = pre +:+ chunk) /\
  (forall rest, text = prompt +:+ rest -> hf_output prompt text = [rest]) /\
  ((forall rest, text <> prompt +:+ rest) -> hf_output prompt text = [text]).
Proof.
  unfold hf_output. split; [|split].
  - destruct (String.prefix prompt text).
    + destruct (string_skip_suffix (String.length prompt) text) as [pre Hpre].
      by eexists _, pre.
    + by exists text, "".
  - intros rest ->. by rewrite prefix_append, string_skip_append.
  - intros Hno. destruct (String.prefix prompt text) eqn:Hp; [|done].
    destruct (Hno (string_skip (String.length prompt) text)).
    symmetry. by apply prefix_split.
Qed.

Lemma hf_output_strips_prompt_witness :
  hf_output "Say hi" "Say hi there" = [" there"].
Proof.
  by apply (proj1 (proj2 (hf_output_strips_prompt "Say hi" "Say hi there"))).
Defined.

Lemma join_cons (x : string) (l : list string) : join (x :: l) = x +:+ join l.
Proof. reflexivity. Qed.

Lemma filter_truthy_join (l : list (option string)) :
  join (texts (List.filter truthy l)) = join (texts l).
Proof.
  induction l as [|x l IH]; [done|]. cbn [List.filter].
  destruct x as [[|a x]|]; cbn [truthy]; [exact IH| |exact IH].
  change (texts (Some (String a x) :: ?l)) with (String a x :: texts l).
  by rewrite !join_cons, IH.
Qed.

Lemma filter_truthy_sublist (l : list (option string)) :
  List.filter truthy l `sublist_of` l.
Proof.
  induction l as [|x l IH]; [constructor|]. cbn [List.filter].
  destruct (truthy x); [by apply sublist_skip|by apply sublist_cons].
Qed.

Lemma filter_truthy_Forall (l : list (option string)) :
  Forall (fun c => exists text, c = Some text /\ text <> "") (List.filter truthy l).
Proof.
  induction l as [|x l IH]; [constructor|]. cbn [List.filter].
  destruct x as [[|a x]|]; cbn [truthy]; [exact IH| |exact IH].
  constructor; [|exact IH]. by eexists.
Qed.

Lemma chunk_content_None chunk :
  chunk_content chunk = None <->
  exists msg, chunk !! "message" = Some msg /\ msg !! "content" = Some None.
Proof.
  unfold chunk_content. split.
  - destruct (chunk !! "message") as [msg|] eqn:Hm; simpl.
    + destruct (msg !! "content") as [[c|]|] eqn:Hc; simpl; try done.
      intros _. by exists msg.
    + by rewrite lookup_empty.
  - intros (msg & -> & Hc). simpl. by rewrite Hc.
Qed.

Lemma chunk_content_missing chunk :
  chunk !! "message" = None \/
  (exists msg, chunk !! "message" = Some msg /\ msg !! "content" = None) ->
  chunk_content chunk = Some "".
Proof.
  unfold chunk_content. intros [->|(msg & -> & Hc)]; simpl; [done|].
  by rewrite Hc.
Qed.

(** X17.  [OllamaAdapter.generate].  Streaming, it yields the contents of
    the chunks that have one, in order, each a string that is not empty and
    never [None], and what it yields joins to what the string contents of
    all the chunks of the chat join to; a chunk with no [message], or a
    message whose [content] is missing, [None] or empty, adds nothing.  Not
    streaming, it yields one value whatever the response: the empty string
    when the content is missing, and [None], which is no string, exactly
    when the content of the message is [None]; streaming the same response
    as the one chunk of a chat yields that value when it is a string that is
    not empty, and nothing otherwise. *)
Theorem ollama_output_joins
    (chunks : list (gmap string (gmap string (option string))))
    (resp : gmap string (gmap string (option string))) :
  Forall (fun c => exists text, c = Some text /\ text <> "")
    (ollama_output true chunks resp) /\
  ollama_output true chunks resp `sublist_of` chunk_content <$> chunks /\
  join (texts (ollama_output true chunks resp))
    = join (texts (chunk_content <$> chunks)) /\
  (forall chunk,
     chunk !! "message" = None \/
     (exists msg, chunk !! "message" = Some msg /\
        (msg !! "content" = None \/ msg !! "content" = Some None \/
         msg !! "content" = Some (Some ""))) ->
     ollama_output true (chunk :: chunks) resp = ollama_output true chunks resp) /\
  (exists c, ollama_output false chunks resp = [c] /\
     (resp !! "message" = None \/
      (exists msg, resp !! "message" = Some msg /\ msg !! "content" = None) ->
      c = Some "") /\
     (c = None <->
      exists msg, resp !! "message" = Some msg /\ msg !! "content" = Some None) /\
     ollama_output true [resp] resp = (if truthy c then [c] else [])).
Proof.
  unfold ollama_output. split; [|split; [|split; [|split]]].
  - apply filter_truthy_Forall.
  - apply filter_truthy_sublist.
  - apply filter_truthy_join.
  - intros chunk Hc. rewrite fmap_cons. cbn [List.filter].
    assert (truthy (chunk_content chunk) = false) as ->; [|done].
    unfold chunk_content.
    destruct Hc as [->|(msg & -> & [Hm|[Hm|Hm]])]; simpl; [done|by rewrite Hm..].
  - exists (chunk_content resp). split; [done|split; [|split]].
    + apply chunk_content_missing.
    + apply chunk_content_None.
    + simpl. by destruct (truthy (chunk_content resp)).
Qed.

Lemma ollama_output_joins_witness :
  ollama_output true
    [{["message" := {["content" := None]}]};
     {["message" := {["content" := Some "lo"]}]}] ∅
  = ollama_output true [{["message" := {["content" := Some "lo"]}]}] ∅.
Proof.
  apply (proj1 (proj2 (proj2 (proj2
           (ollama_output_joins [{["message" := {["content" := Some "lo"]}]}] ∅))))).
  right. eexists. split; [reflexivity|]. right. left. reflexivity.
Defined.
